(** * GT-Music-Genre test-split organizer: a shallow embedding

    The script [setup-gtzan-dataset.py] fetches a dataset snapshot, reads the
    metadata table [test.csv] and moves every listed file into
    [GT-Music-Genre/test/<classname>/<basename>].  Everything it does is an
    effect on the filesystem or on standard output, so the embedding threads
    an explicit process state through a small exception monad.

    The library calls of the script are modelled after their POSIX/CPython
    behaviour: [posixpath] works on strings, the kernel resolves a path
    component by component, [os.makedirs] and [shutil.move] follow the CPython
    sources.  Symbolic links, permissions and several mounted devices are
    outside of the model. *)

From stdpp Require Import gmap strings list fin_maps.
From Stdlib Require Import Ascii.

Local Open Scope string_scope.
Local Open Scope list_scope.
Local Open Scope stdpp_scope.

(** ** Exceptions and outcomes *)

Inductive exn :=
  | FileNotFoundError
  | FileExistsError
  | NotADirectoryError
  | IsADirectoryError
  | OSError            (* any other errno: EINVAL, EBUSY, ENOTEMPTY *)
  | ShutilError        (* shutil.Error *)
  | SameFileError
  | KeyError (key : string)
  | TypeError
  | RecursionError
  | LibraryError (msg : string).  (* raised inside huggingface_hub or pandas *)

Global Instance exn_eq_dec : EqDecision exn.
Proof. solve_decision. Defined.

(** ** Python strings and [posixpath] *)

Module posixpath.

Definition sep : ascii := "/"%char.

Definition is_sep (c : ascii) : bool := bool_decide (c = sep).

Definition is_empty (s : string) : bool :=
  match s with EmptyString => true | _ => false end.

(** [p.startswith('/')] *)
Definition startswith_sep (p : string) : bool :=
  match p with String c _ => is_sep c | EmptyString => false end.

(** [p.endswith('/')] *)
Fixpoint endswith_sep (p : string) : bool :=
  match p with
  | EmptyString => false
  | String c EmptyString => is_sep c
  | String _ r => endswith_sep r
  end.

(** [p == '/' * len(p)] *)
Fixpoint all_sep (p : string) : bool :=
  match p with
  | EmptyString => true
  | String c r => is_sep c && all_sep r
  end.

(** [p.rstrip('/')] *)
Fixpoint rstrip_sep (p : string) : string :=
  match p with
  | EmptyString => EmptyString
  | String c r =>
      let r' := rstrip_sep r in
      if is_sep c && is_empty r' then EmptyString else String c r'
  end.

(** [(p[:i], p[i:])] for [i = p.rfind('/') + 1] *)
Fixpoint rpartition (p : string) : string * string :=
  match p with
  | EmptyString => (EmptyString, EmptyString)
  | String c r =>
      let '(h, t) := rpartition r in
      if is_sep c then (String c h, t)
      else if is_empty h then (EmptyString, String c t)
      else (String c h, t)
  end.

(** [posixpath.join(a, b)] *)
Definition join (a b : string) : string :=
  if startswith_sep b then b
  else if is_empty a || endswith_sep a then a +:+ b
  else a +:+ String sep b.

(** [posixpath.basename(p)] *)
Definition basename (p : string) : string := snd (rpartition p).

(** [posixpath.split(p)] *)
Definition split (p : string) : string * string :=
  let '(head, tail) := rpartition p in
  (if negb (is_empty head) && negb (all_sep head) then rstrip_sep head else head,
   tail).

(** [p.split('/')]: the components the kernel walks through. *)
Fixpoint components (p : string) : list string :=
  match p with
  | EmptyString => [EmptyString]
  | String c r =>
      if is_sep c then EmptyString :: components r
      else match components r with
           | h :: t => String c h :: t
           | [] => [String c EmptyString]
           end
  end.

End posixpath.

(** ** The filesystem and the process state *)

(** A canonical path lists the directory names from the filesystem root. *)
Abbreviation path := (list string).

Inductive node :=
  | File (data : string)
  | Dir.

Global Instance node_eq_dec : EqDecision node.
Proof. solve_decision. Defined.

Record state := State {
  fs : gmap path node;     (* every entry except the root, which always exists *)
  cwd : path;              (* working directory; it may be gone from the tree *)
  stdout : list string     (* lines printed so far *)
}.

Definition set_fs (m : gmap path node) (st : state) : state :=
  State m (cwd st) (stdout st).

Inductive outcome (A : Type) :=
  | Ok (a : A) (st : state)
  | Raise (e : exn) (st : state).
Arguments Ok {A} a st.
Arguments Raise {A} e st.

Definition M (A : Type) : Type := state → outcome A.

Definition ret {A} (a : A) : M A := λ st, Ok a st.
Definition raise {A} (e : exn) : M A := λ st, Raise e st.
Definition bind {A B} (m : M A) (k : A → M B) : M B :=
  λ st, match m st with
        | Ok a st' => k a st'
        | Raise e st' => Raise e st'
        end.
Definition get : M state := λ st, Ok st st.
Definition lift {A} (r : exn + A) : M A :=
  match r with inl e => raise e | inr a => ret a end.

(** [try: m  except pred: handler] *)
Definition try_except {A} (m : M A) (caught : exn → bool) (handler : exn → M A) : M A :=
  λ st, match m st with
        | Ok a st' => Ok a st'
        | Raise e st' => if caught e then handler e st' else Raise e st'
        end.

Notation "x <- m ;; k" := (bind m (λ x, k))
  (at level 100, m at next level, right associativity).
Notation "m ;; k" := (bind m (λ _, k))
  (at level 100, right associativity).

(** Subclasses of [OSError], as caught by [except OSError]. *)
Definition is_OSError (e : exn) : bool :=
  match e with
  | FileNotFoundError | FileExistsError | NotADirectoryError
  | IsADirectoryError | OSError | ShutilError | SameFileError => true
  | _ => false
  end.

Definition is_FileExistsError (e : exn) : bool :=
  match e with FileExistsError => true | _ => false end.

(** ** System calls: [os] and [os.path] *)

Module os.
Import posixpath.

(** The root directory is not stored in the map. *)
Definition node_at (m : gmap path node) (q : path) : option node :=
  match q with
  | [] => Some Dir
  | _ => m !! q
  end.

Definition special (c : string) : bool :=
  bool_decide (c = "" ∨ c = "." ∨ c = "..").

(** One step of path resolution inside the directory [cur]. *)
Definition step (cur : path) (c : string) : path :=
  if decide (c = "" ∨ c = ".") then cur
  else if decide (c = "..") then removelast cur
  else cur ++ [c].

(** The kernel looks every component up in a directory: all components but
    the last must lead to existing directories. *)
Fixpoint walk (m : gmap path node) (cur : path) (cs : list string) : exn + path :=
  match cs with
  | [] => inr cur
  | c :: cs' =>
      match node_at m cur with
      | Some Dir => walk m (step cur c) cs'
      | Some (File _) => inl NotADirectoryError
      | None => inl FileNotFoundError
      end
  end.

Definition resolve (p : string) (st : state) : exn + path :=
  if is_empty p then inl FileNotFoundError
  else walk (fs st) (if startswith_sep p then [] else cwd st) (components p).

(** A path made of [.] and empty components only ([.], [./], [/]) names the
    directory the lookup starts in.  The process holds that directory open:
    it is found even after it has been removed from the tree, when no name
    can be looked up in it any more. *)
Definition names_start (p : string) : bool :=
  negb (is_empty p) &&
  forallb (λ c, bool_decide (c = "" ∨ c = ".")) (components p).

(** [os.stat(p)], [None] when it raises. *)
Definition stat (p : string) (st : state) : option node :=
  if names_start p then Some Dir
  else match resolve p st with
       | inr q => node_at (fs st) q
       | inl _ => None
       end.

(** [os.path.exists(p)] *)
Definition path_exists (p : string) (st : state) : bool :=
  bool_decide (is_Some (stat p st)).

(** [os.path.isdir(p)] *)
Definition path_isdir (p : string) (st : state) : bool :=
  bool_decide (stat p st = Some Dir).

(** Creating or renaming onto a name ignores its trailing slashes. *)
Definition strip_trailing_sep (p : string) : string :=
  if negb (is_empty p) && all_sep p then String sep EmptyString
  else rstrip_sep p.

(** The last real component, [shutil._basename]. *)
Definition last_component (p : string) : string := basename (rstrip_sep p).

(** [os.mkdir(p)]: the directory the lookup starts in exists already. *)
Definition mkdir (p : string) : M unit := λ st,
  if names_start p then Raise FileExistsError st
  else
    match resolve (strip_trailing_sep p) st with
    | inl e => Raise e st
    | inr q =>
        match node_at (fs st) q with
        | Some _ => Raise FileExistsError st
        | None => Ok tt (set_fs (<[q := Dir]> (fs st)) st)
        end
    end.

(** The last step of [os.makedirs]: [mkdir], where an error is forgiven
    when [exist_ok] is set and the directory is there. *)
Definition makedirs_leaf (name : string) (exist_ok : bool) : M unit :=
  try_except (mkdir name) is_OSError
    (λ e, st <- get ;;
          if negb exist_ok || negb (path_isdir name st) then raise e
          else ret tt).

(** [os.makedirs(name, exist_ok=...)], CPython's recursion on [split(name)].
    The head gets shorter at every call, so [length name] calls suffice. *)
Fixpoint makedirs_rec (fuel : nat) (name : string) (exist_ok : bool) : M unit :=
  let '(head, tail) := split name in
  let '(head, tail) := if is_empty tail then split head else (head, tail) in
  st <- get ;;
  if negb (is_empty head) && negb (is_empty tail) && negb (path_exists head st)
  then
    match fuel with
    | 0 => raise RecursionError
    | S fuel' =>
        try_except (makedirs_rec fuel' head exist_ok)
                   is_FileExistsError (λ _, ret tt) ;;
        if decide (tail = ".") then ret tt else makedirs_leaf name exist_ok
    end
  else makedirs_leaf name exist_ok.

Definition makedirs (name : string) (exist_ok : bool) : M unit :=
  makedirs_rec (String.length name) name exist_ok.

(** Moving a directory moves everything below it. *)
Definition rekey (q d : path) (k : path) : path :=
  if bool_decide (q `prefix_of` k) then d ++ drop (length q) k else k.

Definition below (d k : path) : Prop := d `prefix_of` k ∧ k ≠ d.

Definition has_children (m : gmap path node) (d : path) : bool :=
  bool_decide (map_Exists (λ k _, below d k) m).

Definition move_tree (q d : path) (st : state) : state :=
  State (kmap (rekey q d) (delete d (fs st))) (rekey q d (cwd st)) (stdout st).

(** [os.rename(src, dst)] *)
Definition rename (src dst : string) : M unit := λ st,
  match resolve src st with
  | inl e => Raise e st
  | inr q =>
    match node_at (fs st) q with
    | None => Raise FileNotFoundError st
    | Some n =>
      match resolve (strip_trailing_sep dst) st with
      | inl e => Raise e st
      | inr d =>
        if special (last_component src) || special (last_component dst)
        then Raise OSError st
        else
          match n with
          | File data =>
              if endswith_sep dst then Raise NotADirectoryError st
              else if decide (q = d) then Ok tt st
              else match node_at (fs st) d with
                   | Some Dir => Raise IsADirectoryError st
                   | _ => Ok tt (set_fs (<[d := File data]> (delete q (fs st))) st)
                   end
          | Dir =>
              if decide (q = d) then Ok tt st
              else if bool_decide (q `prefix_of` d) then Raise OSError st
              else match node_at (fs st) d with
                   | Some (File _) => Raise NotADirectoryError st
                   | Some Dir =>
                       if has_children (fs st) d then Raise OSError st
                       else Ok tt (move_tree q d st)
                   | None => Ok tt (move_tree q d st)
                   end
          end
      end
    end
  end.

(** [os.unlink(p)] *)
Definition unlink (p : string) : M unit := λ st,
  match resolve p st with
  | inl e => Raise e st
  | inr q =>
      match node_at (fs st) q with
      | None => Raise FileNotFoundError st
      | Some Dir => Raise IsADirectoryError st
      | Some (File _) => Ok tt (set_fs (delete q (fs st)) st)
      end
  end.

(** [os.path.samefile(a, b)], false when either cannot be stat'ed *)
Definition samefile (a b : string) (st : state) : bool :=
  match resolve a st, resolve b st with
  | inr q, inr d =>
      bool_decide (q = d) && bool_decide (is_Some (node_at (fs st) q))
  | _, _ => false
  end.

(** [os.path.abspath(p)], a purely lexical normalisation *)
Definition abspath (p : string) (st : state) : path :=
  foldl step (if startswith_sep p then [] else cwd st) (components p).

End os.

(** ** [shutil.move] *)

Module shutil.
Import posixpath.

(** [shutil._destinsrc(src, dst)] compares the absolute paths lexically. *)
Definition destinsrc (src dst : string) (st : state) : bool :=
  bool_decide (os.abspath src st `prefix_of` os.abspath dst st).

(** [shutil.copy2(src, dst)] for a regular file *)
Definition copy2 (src dst : string) : M unit := λ st,
  match os.resolve src st with
  | inl e => Raise e st
  | inr q =>
    match os.node_at (fs st) q with
    | None => Raise FileNotFoundError st
    | Some Dir => Raise IsADirectoryError st
    | Some (File data) =>
      match os.resolve dst st with
      | inl e => Raise e st
      | inr d =>
          if decide (q = d) then Raise SameFileError st
          else match os.node_at (fs st) d with
               | Some Dir => Raise IsADirectoryError st
               | _ => Ok tt (set_fs (<[d := File data]> (fs st)) st)
               end
      end
    end
  end.

(** [shutil.copytree(src, dst)]: [dst] must be new, the entries below [src]
    are copied below it. *)
Definition copytree (src dst : string) : M unit :=
  os.makedirs dst false ;;
  λ st, match os.resolve src st, os.resolve dst st with
        | inr q, inr d =>
            let copied :=
              kmap (os.rekey q d) (filter (λ kv, os.below q kv.1) (fs st)) in
            Ok tt (set_fs (fs st ∪ copied) st)
        | inl e, _ | _, inl e => Raise e st
        end.

(** [shutil.rmtree(src)] *)
Definition rmtree (src : string) : M unit := λ st,
  match os.resolve src st with
  | inl e => Raise e st
  | inr q => Ok tt (set_fs (filter (λ kv, ¬ q `prefix_of` kv.1) (fs st)) st)
  end.

(** The tail of [shutil.move]: rename, or copy and delete when the rename
    is refused. *)
Definition move_to (src dst real_dst : string) : M unit :=
  try_except (os.rename src real_dst) is_OSError (λ _,
    st <- get ;;
    if os.path_isdir src st then
      if destinsrc src dst st then raise ShutilError
      else copytree src real_dst ;; rmtree src
    else copy2 src real_dst ;; os.unlink src).

(** [shutil.move(src, dst)] *)
Definition move (src dst : string) : M unit := λ st,
  if os.path_isdir dst st then
    if os.samefile src dst st then os.rename src dst st
    else
      let real_dst := join dst (os.last_component src) in
      if os.path_exists real_dst st then Raise ShutilError st
      else move_to src dst real_dst st
  else move_to src dst dst st.

End shutil.

(** [print(line)] *)
Definition print (line : string) : M unit := λ st,
  Ok tt (State (fs st) (cwd st) (stdout st ++ [line])).

(** ** [pandas]: the metadata table *)

Module pd.

(** A cell is a Python string or some other scalar (NaN, a number). *)
Inductive value :=
  | VStr (s : string)
  | VOther.

Record DataFrame := {
  columns : list string;
  data : list (list value)
}.

Fixpoint index_of (key : string) (cols : list string) : option nat :=
  match cols with
  | [] => None
  | c :: cols' => if decide (c = key) then Some 0 else S <$> index_of key cols'
  end.

(** The cell of [row] in the column labelled [key]. *)
Definition loc (df : DataFrame) (row : list value) (key : string) : exn + value :=
  match index_of key (columns df) with
  | None => inl (KeyError key)
  | Some i => inr (default VOther (row !! i))
  end.

(** [row[key]] for a row produced by [df.iterrows()] *)
Definition getitem (df : DataFrame) (row : list value) (key : string) : M value :=
  lift (loc df row key).

End pd.

(** [os.path.join(a, v)] where [v] comes out of the table *)
Definition join_value (a : string) (v : pd.value) : M string :=
  match v with
  | pd.VStr s => ret (posixpath.join a s)
  | pd.VOther => raise TypeError
  end.

(** [for x in l: body(x)] *)
Fixpoint for_each {A} (body : A → M unit) (l : list A) : M unit :=
  match l with
  | [] => ret tt
  | x :: l' => body x ;; for_each body l'
  end.

(** ** The script *)

Section Script.

(** The two external collaborators: the hub client and the CSV parser. *)
Variable snapshot_download : string → string → string → M unit.
Variable parse_csv : string → exn + pd.DataFrame.

(** [pd.read_csv(p)] *)
Definition read_csv (p : string) : M pd.DataFrame := λ st,
  match os.resolve p st with
  | inl e => Raise e st
  | inr q =>
      match os.node_at (fs st) q with
      | None => Raise FileNotFoundError st
      | Some Dir => Raise IsADirectoryError st
      | Some (File text) => lift (parse_csv text) st
      end
  end.

Definition audio_datasets_path : string := ".".
Definition base_dir : string := "GT-Music-Genre".
Definition save_dir : string := posixpath.join base_dir "test".

Definition warning (source_file : string) : string :=
  "Warning: File not found - " +:+ source_file.

Definition completion : string :=
  "Files have been organized into genre subdirectories within the directory".

(** The body of the loop over [df.iterrows()]. *)
Definition process_row (df : pd.DataFrame) (row : list pd.value) : M unit :=
  p <- pd.getitem df row "path" ;;
  source_file <- join_value base_dir p ;;
  genre <- pd.getitem df row "classname" ;;
  let filename := posixpath.basename source_file in
  genre_dir <- join_value save_dir genre ;;
  os.makedirs genre_dir true ;;
  let dest_file := posixpath.join genre_dir filename in
  st <- get ;;
  if os.path_exists source_file st
  then shutil.move source_file dest_file
  else print (warning source_file).

(** Lines 18 to 47: everything after the download. *)
Definition organize : M unit :=
  os.makedirs save_dir true ;;
  df <- read_csv (posixpath.join base_dir "test.csv") ;;
  for_each (process_row df) (pd.data df) ;;
  print completion.

(** Lines 8 and 9. *)
Definition ensure_root : M unit :=
  st <- get ;;
  if negb (os.path_exists audio_datasets_path st)
  then os.makedirs audio_datasets_path true else ret tt.

(** Lines 11 to 15. *)
Definition fetch : M unit :=
  snapshot_download "MahiA/GT-Music-Genre" "dataset"
    (posixpath.join audio_datasets_path "GT-Music-Genre").

Definition main : M unit :=
  ensure_root ;;
  fetch ;;
  organize.

End Script.

(** * Facts about path strings *)

Module path_facts.
Import posixpath.

(** A string without separator. *)
Fixpoint no_sep (s : string) : bool :=
  match s with
  | EmptyString => true
  | String c r => negb (is_sep c) && no_sep r
  end.

(** The name of a directory entry: one component, not [.] or [..]. *)
Definition is_name (c : string) : bool := negb (os.special c) && no_sep c.

Lemma sapp_nil (s : string) : "" +:+ s = s.
Proof. reflexivity. Qed.

Lemma sapp_cons (c : ascii) (s t : string) : String c s +:+ t = String c (s +:+ t).
Proof. reflexivity. Qed.

Lemma sapp_nil_r (s : string) : s +:+ "" = s.
Proof. induction s as [|c s IH]; [done|]. by rewrite sapp_cons, IH. Qed.

Lemma sapp_assoc (a b c : string) : (a +:+ b) +:+ c = a +:+ (b +:+ c).
Proof. induction a as [|x a IH]; [done|]. by rewrite !sapp_cons, IH. Qed.

Lemma is_empty_true (s : string) : is_empty s = true ↔ s = "".
Proof. destruct s; naive_solver. Qed.

Lemma is_empty_app (a b : string) : is_empty (a +:+ b) = is_empty a && is_empty b.
Proof. by destruct a. Qed.

Lemma is_name_no_sep (c : string) : is_name c = true → no_sep c = true.
Proof. unfold is_name. by intros [_ ?]%andb_true_iff. Qed.

Lemma is_name_not_special (c : string) :
  is_name c = true → c ≠ "" ∧ c ≠ "." ∧ c ≠ "..".
Proof.
  unfold is_name, os.special. intros [H _]%andb_true_iff.
  apply negb_true_iff, bool_decide_eq_false in H. naive_solver.
Qed.

Lemma no_sep_startswith (s : string) : no_sep s = true → startswith_sep s = false.
Proof. destruct s as [|c s]; [done|]. simpl. by intros [?%negb_true_iff _]%andb_true_iff. Qed.

(** ** [components] *)

Lemma components_not_nil (p : string) : components p ≠ [].
Proof. destruct p as [|c p]; [done|]. simpl. by repeat case_match. Qed.

Lemma components_app_sep (a b : string) :
  components (a +:+ String sep b) = components a ++ components b.
Proof.
  induction a as [|c a IH].
  - rewrite sapp_nil. reflexivity.
  - rewrite sapp_cons. simpl. rewrite IH.
    destruct (is_sep c); [done|].
    pose proof (components_not_nil a). by destruct (components a).
Qed.

Lemma components_no_sep (c : string) : no_sep c = true → components c = [c].
Proof.
  induction c as [|x c IH]; [done|]. simpl.
  intros [Hx Hc]%andb_true_iff. apply negb_true_iff in Hx.
  by rewrite Hx, IH.
Qed.

Lemma components_all_no_sep (p : string) : Forall (λ c, no_sep c = true) (components p).
Proof.
  induction p as [|x p IH]; simpl; [by repeat constructor|].
  destruct (is_sep x) eqn:Hx; [by constructor|].
  destruct (components p) as [|h t]; [by repeat constructor; simpl; rewrite Hx|].
  inversion_clear IH. constructor; [|done]. simpl. by rewrite Hx.
Qed.

Lemma components_has_sep (p : string) :
  no_sep p = false → ∃ c c' cs, components p = c :: c' :: cs.
Proof.
  induction p as [|x p IH]; [done|]. simpl.
  destruct (is_sep x) eqn:Hx; simpl.
  - intros _. pose proof (components_not_nil p).
    destruct (components p) as [|c cs]; [done|]. eauto.
  - intros (c & c' & cs & ->)%IH. eauto.
Qed.

(** ** [rpartition], [basename] *)

Lemma rpartition_no_sep (t : string) : no_sep t = true → rpartition t = ("", t).
Proof.
  induction t as [|x t IH]; [done|]. simpl.
  intros [Hx Ht]%andb_true_iff. apply negb_true_iff in Hx.
  by rewrite IH, Hx.
Qed.

Lemma rpartition_spec (p h t : string) :
  rpartition p = (h, t) →
  p = h +:+ t ∧ no_sep t = true ∧ (h = "" ∨ endswith_sep h = true).
Proof.
  revert h t. induction p as [|x p IH]; intros h t; simpl.
  - intros [= <- <-]. auto.
  - destruct (rpartition p) as [h' t'] eqn:Hp.
    destruct (IH _ _ eq_refl) as (-> & Ht & Hh).
    destruct (is_sep x) eqn:Hx.
    + intros [= <- <-]. split_and!; [done..|]. right.
      destruct Hh as [->|Hh]; simpl; [done|]. by destruct h'.
    + destruct h' as [|y h']; simpl.
      * intros [= <- <-]. rewrite sapp_nil. simpl. rewrite Hx. auto.
      * intros [= <- <-]. split_and!; [done..|]. right.
        destruct Hh as [?|Hh]; [done|]. done.
Qed.

Lemma rpartition_app_sep (a b : string) :
  rpartition (a +:+ String sep b) =
  (a +:+ String sep (rpartition b).1, (rpartition b).2).
Proof.
  induction a as [|x a IH].
  - rewrite !sapp_nil. simpl. by destruct (rpartition b).
  - rewrite !sapp_cons. simpl. rewrite IH. simpl.
    destruct (is_sep x); [done|]. by destruct a.
Qed.

Lemma basename_app_sep (a b : string) : basename (a +:+ String sep b) = basename b.
Proof. unfold basename. by rewrite rpartition_app_sep. Qed.

Lemma basename_no_sep (p : string) : no_sep (basename p) = true.
Proof.
  unfold basename. destruct (rpartition p) as [h t] eqn:Hp.
  by destruct (rpartition_spec _ _ _ Hp) as (_ & ? & _).
Qed.

Lemma rpartition_has_sep (p : string) : no_sep p = false → (rpartition p).1 ≠ "".
Proof.
  destruct (rpartition p) as [h t] eqn:Hp. simpl. intros Hns ->.
  destruct (rpartition_spec _ _ _ Hp) as (-> & Ht & _).
  rewrite sapp_nil in Hns. congruence.
Qed.

Lemma basename_last (p : string) : last (components p) = Some (basename p).
Proof.
  unfold basename. induction p as [|x p IH]; [done|]. simpl.
  pose proof (components_not_nil p) as Hne.
  destruct (is_sep x) eqn:Hx.
  - destruct (rpartition p) as [h t]. simpl in *.
    destruct (components p); [done|]. by rewrite last_cons_cons.
  - destruct (no_sep p) eqn:Hns.
    + by rewrite (components_no_sep _ Hns), (rpartition_no_sep _ Hns).
    + destruct (components_has_sep _ Hns) as (c & c' & cs & Hc).
      pose proof (rpartition_has_sep _ Hns) as Hh.
      destruct (rpartition p) as [h t]. simpl in *.
      rewrite Hc in *. destruct h; [done|]. simpl.
      by rewrite last_cons_cons in *.
Qed.

(** ** Strings that end in a name *)

Lemma endswith_sep_app (a n : string) :
  n ≠ "" → endswith_sep (a +:+ n) = endswith_sep n.
Proof.
  intros Hn. induction a as [|x a IH]; [done|]. rewrite sapp_cons. simpl.
  rewrite IH. destruct (a +:+ n) eqn:Ha; [|done].
  destruct a, n; done.
Qed.

Lemma endswith_no_sep (n : string) : no_sep n = true → endswith_sep n = false.
Proof.
  induction n as [|x n IH]; [done|]. simpl.
  intros [Hx Hn]%andb_true_iff. apply negb_true_iff in Hx.
  destruct n; [done|]. by apply IH.
Qed.

Lemma rstrip_sep_id (p : string) : endswith_sep p = false → rstrip_sep p = p.
Proof.
  induction p as [|x p IH]; [done|]. simpl. destruct p as [|y p].
  - simpl. by intros ->.
  - intros Hp. rewrite IH by done. by rewrite andb_false_r.
Qed.

Lemma all_sep_endswith (p : string) :
  is_empty p = false → endswith_sep p = false → all_sep p = false.
Proof.
  induction p as [|x p IH]; [done|]. simpl. intros _. destruct p as [|y p].
  - intros ->. done.
  - intros Hp. rewrite IH by done. by rewrite andb_false_r.
Qed.

Lemma all_sep_app (a b : string) : all_sep (a +:+ b) = all_sep a && all_sep b.
Proof.
  induction a as [|x a IH]; [done|]. rewrite sapp_cons. simpl.
  by rewrite IH, andb_assoc.
Qed.

Lemma name_tail (p : string) :
  is_name (basename p) = true →
  is_empty p = false ∧ endswith_sep p = false.
Proof.
  unfold basename. destruct (rpartition p) as [h t] eqn:Hp. simpl.
  destruct (rpartition_spec _ _ _ Hp) as (-> & Ht & _). intros Hn.
  destruct (is_name_not_special _ Hn) as (Hne & _). split.
  - rewrite is_empty_app. destruct t; [done|]. by rewrite andb_false_r.
  - rewrite endswith_sep_app by done. by apply endswith_no_sep.
Qed.

Lemma strip_trailing_sep_name (p : string) :
  is_name (basename p) = true → os.strip_trailing_sep p = p.
Proof.
  intros [Hne Hend]%name_tail. unfold os.strip_trailing_sep.
  rewrite (all_sep_endswith _ Hne Hend), andb_false_r.
  by apply rstrip_sep_id.
Qed.

Lemma last_component_name (p : string) :
  is_name (basename p) = true → os.last_component p = basename p.
Proof.
  intros [_ Hend]%name_tail. unfold os.last_component.
  by rewrite rstrip_sep_id.
Qed.

(** ** [join] *)

Lemma join_relative (a b : string) :
  is_empty a = false → endswith_sep a = false → startswith_sep b = false →
  join a b = a +:+ String sep b.
Proof. unfold join. by intros -> -> ->. Qed.

Lemma is_name_startswith (n : string) : is_name n = true → startswith_sep n = false.
Proof. intros ?%is_name_no_sep. by apply no_sep_startswith. Qed.

Lemma basename_name (n : string) : no_sep n = true → basename n = n.
Proof. intros Hn. unfold basename. by rewrite rpartition_no_sep. Qed.

End path_facts.

(** * Facts about path resolution *)

Module fs_facts.
Import posixpath path_facts.

(** What [stat] and [open] see at [p]. *)
Definition contents (p : string) (st : state) : option node := os.stat p st.

(** The map is a tree: every entry lies in a directory. *)
Definition wf (m : gmap path node) : Prop :=
  m !! [] = None ∧
  map_Forall (λ k _, os.node_at m (removelast k) = Some Dir) m.

Global Instance wf_dec (m : gmap path node) : Decision (wf m).
Proof. unfold wf. apply _. Defined.

Lemma node_at_snoc (m : gmap path node) (k : path) (c : string) :
  os.node_at m (k ++ [c]) = m !! (k ++ [c]).
Proof. by destruct k. Qed.

Lemma node_at_lookup (m : gmap path node) (k : path) :
  k ≠ [] → os.node_at m k = m !! k.
Proof. by destruct k. Qed.

Lemma node_at_app (m : gmap path node) (k : path) (c : string) (l : path) :
  os.node_at m (k ++ c :: l) = m !! (k ++ c :: l).
Proof. by destruct k. Qed.

Lemma wf_ancestor (m : gmap path node) (k : path) (c : string) (rest : path) :
  wf m → is_Some (os.node_at m (k ++ c :: rest)) → os.node_at m k = Some Dir.
Proof.
  intros [_ Hwf]. induction rest as [|x rest IH] using rev_ind.
  - rewrite node_at_snoc. intros [n Hn]. apply Hwf in Hn.
    by rewrite removelast_last in Hn.
  - intros [n Hn]. apply IH.
    replace (k ++ c :: rest ++ [x]) with ((k ++ c :: rest) ++ [x]) in Hn
      by by rewrite <-app_assoc.
    rewrite node_at_snoc in Hn. apply Hwf in Hn.
    rewrite removelast_last in Hn. by rewrite Hn.
Qed.

Lemma step_name (cur : path) (c : string) :
  is_name c = true → os.step cur c = cur ++ [c].
Proof.
  intros (? & ? & ?)%is_name_not_special. unfold os.step.
  by rewrite !decide_False by naive_solver.
Qed.

Lemma walk_app (m : gmap path node) (cur : path) (xs ys : list string) :
  os.walk m cur (xs ++ ys) =
  match os.walk m cur xs with
  | inr q => os.walk m q ys
  | inl e => inl e
  end.
Proof.
  revert cur. induction xs as [|x xs IH]; intros cur; simpl; [done|].
  destruct (os.node_at m cur) as [[]|]; auto.
Qed.

Lemma walk_names_inr (m : gmap path node) (cur q : path) (cs : list string) :
  Forall (λ c, is_name c = true) cs →
  os.walk m cur cs = inr q → q = cur ++ cs.
Proof.
  intros Hcs. revert cur. induction Hcs as [|c cs Hc Hcs IH]; intros cur; simpl.
  - intros [= <-]. by rewrite app_nil_r.
  - destruct (os.node_at m cur) as [[]|]; try done.
    rewrite step_name by done. intros ->%IH. by rewrite <-app_assoc.
Qed.

Lemma walk_names (m : gmap path node) (cur : path) (cs : list string) :
  Forall (λ c, is_name c = true) cs →
  (∀ pre c post, cs = pre ++ c :: post → os.node_at m (cur ++ pre) = Some Dir) →
  os.walk m cur cs = inr (cur ++ cs).
Proof.
  intros Hcs. revert cur. induction Hcs as [|c cs Hc Hcs IH]; intros cur Hdir; simpl.
  - by rewrite app_nil_r.
  - specialize (Hdir [] c cs eq_refl) as Hcur. rewrite app_nil_r in Hcur.
    rewrite Hcur, step_name by done.
    rewrite IH; [by rewrite <-app_assoc|].
    intros pre c' post ->. rewrite <-app_assoc. by apply (Hdir (c :: pre) c' post).
Qed.

(** In a tree, a name below an existing directory resolves. *)
Lemma walk_names_parent (m : gmap path node) (cur : path) (cs : list string) (c : string) :
  wf m → Forall (λ c, is_name c = true) (cs ++ [c]) →
  os.node_at m (cur ++ cs) = Some Dir →
  os.walk m cur (cs ++ [c]) = inr (cur ++ cs ++ [c]).
Proof.
  intros Hwf Hcs Hdir. apply walk_names; [done|].
  intros pre c' post Heq.
  destruct post as [|x post _] using rev_ind.
  - apply app_inj_tail in Heq as [-> _]. done.
  - rewrite app_comm_cons, app_assoc in Heq.
    apply app_inj_tail in Heq as [-> _].
    eapply (wf_ancestor _ _ c' post); [done|].
    rewrite app_assoc in Hdir. by rewrite <-app_assoc, Hdir in *.
Qed.

Lemma walk_names_present (m : gmap path node) (cur : path) (cs : list string) :
  wf m → Forall (λ c, is_name c = true) cs →
  is_Some (os.node_at m (cur ++ cs)) →
  os.walk m cur cs = inr (cur ++ cs).
Proof.
  intros Hwf Hcs Hin. apply walk_names; [done|].
  intros pre c post ->. eapply (wf_ancestor _ _ c post); [done|].
  by rewrite <-app_assoc.
Qed.

(** Along names, [contents] is a plain lookup. *)
Lemma walk_names_lookup (m : gmap path node) (cur : path) (cs : list string) :
  wf m → Forall (λ c, is_name c = true) cs →
  match os.walk m cur cs with
  | inr q => os.node_at m q
  | inl _ => None
  end = os.node_at m (cur ++ cs).
Proof.
  intros Hwf Hcs. destruct (os.node_at m (cur ++ cs)) as [n|] eqn:Hn.
  - rewrite walk_names_present by (by rewrite ?Hn). done.
  - destruct (os.walk m cur cs) as [e|q] eqn:Hw; [done|].
    by apply walk_names_inr in Hw as ->.
Qed.

End fs_facts.

(** * [os.makedirs] on any path *)

Module makedirs_facts.
Import posixpath path_facts fs_facts.

(** ** Trailing separators *)

Lemma rstrip_sep_empty (p : string) : rstrip_sep p = "" ↔ all_sep p = true.
Proof.
  induction p as [|x p IH]; [done|]. simpl.
  destruct (is_sep x); simpl; [|done].
  destruct (rstrip_sep p) eqn:Hr; simpl; [naive_solver|].
  split; [done|]. intros Hp. apply IH in Hp. done.
Qed.

Lemma components_all_sep (p : string) :
  all_sep p = true → components p = replicate (S (String.length p)) "".
Proof.
  induction p as [|x p IH]; [done|]. simpl.
  intros [-> Hp]%andb_true_iff. by rewrite IH.
Qed.

Lemma components_rstrip (p : string) :
  all_sep p = false →
  ∃ n, components p = components (rstrip_sep p) ++ replicate n "".
Proof.
  induction p as [|x p IH]; [done|]. simpl.
  destruct (is_sep x) eqn:Hx; simpl.
  - intros Hp. destruct (IH Hp) as [n Hn].
    assert (is_empty (rstrip_sep p) = false) as ->.
    { destruct (rstrip_sep p) eqn:Hr; [|done].
      apply rstrip_sep_empty in Hr. congruence. }
    simpl. rewrite Hx. exists n. by rewrite Hn.
  - intros _. rewrite Hx. destruct (all_sep p) eqn:Hp.
    + exists (String.length p).
      rewrite (components_all_sep _ Hp).
      apply rstrip_sep_empty in Hp as ->. done.
    + destruct (IH eq_refl) as [n Hn]. exists n. rewrite Hn.
      pose proof (components_not_nil (rstrip_sep p)).
      by destruct (components (rstrip_sep p)).
Qed.

Lemma startswith_rstrip (p : string) :
  all_sep p = false → startswith_sep (rstrip_sep p) = startswith_sep p.
Proof.
  destruct p as [|x p]; [done|]. simpl. intros Hp.
  destruct (is_sep x) eqn:Hx; simpl in *; [|by rewrite Hx].
  destruct (rstrip_sep p) eqn:Hr; simpl; [|done].
  apply rstrip_sep_empty in Hr. congruence.
Qed.

Lemma endswith_sep_snoc (h : string) :
  endswith_sep h = true → ∃ h0, h = h0 +:+ String sep "".
Proof.
  induction h as [|x h IH]; [done|]. simpl. destruct h as [|y h].
  - intros ->%bool_decide_eq_true. by exists "".
  - intros (h0 & ->)%IH. by exists (String x h0).
Qed.

Lemma rstrip_sep_snoc (a : string) : rstrip_sep (a +:+ String sep "") = rstrip_sep a.
Proof.
  induction a as [|x a IH]; [done|]. rewrite sapp_cons. simpl. by rewrite IH.
Qed.

(** ** Resolution of a prefix *)

Lemma walk_empties (m : gmap path node) (q q' : path) (n : nat) :
  os.walk m q (replicate n "") = inr q' → q' = q.
Proof.
  induction n as [|n IH]; simpl; [congruence|].
  destruct (os.node_at m q) as [[]|]; try done.
Qed.

Lemma walk_root_empties (m : gmap path node) (n : nat) :
  os.walk m [] (replicate n "") = inr [].
Proof. induction n as [|n IH]; simpl; [done|]. apply IH. Qed.

Lemma walk_prefix (m : gmap path node) (s q : path) (xs ys : list string) :
  os.walk m s (xs ++ ys) = inr q → ys ≠ [] →
  ∃ q1, os.walk m s xs = inr q1 ∧ os.node_at m q1 = Some Dir.
Proof.
  rewrite walk_app. destruct (os.walk m s xs) as [|q1]; [done|].
  intros Hw Hys. exists q1. split; [done|].
  destruct ys as [|y ys]; [done|]. simpl in Hw.
  by destruct (os.node_at m q1) as [[]|].
Qed.

Lemma resolve_inr_nonempty (p : string) (st : state) (q : path) :
  os.resolve p st = inr q → is_empty p = false.
Proof. unfold os.resolve. by destruct (is_empty p). Qed.

Lemma resolve_all_sep (p : string) (st : state) :
  is_empty p = false → all_sep p = true → os.resolve p st = inr [].
Proof.
  intros He Ha. unfold os.resolve. rewrite He.
  rewrite (components_all_sep _ Ha).
  destruct p as [|x p]; [done|]. simpl in *.
  apply andb_true_iff in Ha as [-> _]. apply (walk_root_empties _ (S (S _))).
Qed.

Lemma resolve_rstrip (p : string) (st : state) (q : path) :
  all_sep p = false → os.resolve p st = inr q →
  os.resolve (rstrip_sep p) st = inr q.
Proof.
  intros Ha. unfold os.resolve. destruct (is_empty p) eqn:He; [done|].
  assert (is_empty (rstrip_sep p) = false) as ->.
  { destruct (rstrip_sep p) eqn:Hr; [|done].
    apply rstrip_sep_empty in Hr. congruence. }
  rewrite startswith_rstrip by done.
  destruct (components_rstrip _ Ha) as [n ->].
  rewrite walk_app.
  destruct (os.walk _ _ (components (rstrip_sep p))) as [|q1]; [done|].
  by intros ->%walk_empties.
Qed.

Lemma resolve_strip_trailing (p : string) (st : state) (q : path) :
  os.resolve p st = inr q → os.resolve (os.strip_trailing_sep p) st = inr q.
Proof.
  intros Hr. pose proof (resolve_inr_nonempty _ _ _ Hr) as He.
  unfold os.strip_trailing_sep. rewrite He. simpl.
  destruct (all_sep p) eqn:Ha; [|by apply resolve_rstrip].
  rewrite (resolve_all_sep _ _ He Ha) in Hr. by injection Hr as <-.
Qed.

(** ** The directory a lookup starts in *)

Lemma names_start_spec (p : string) :
  os.names_start p = true ↔
  is_empty p = false ∧ Forall (λ c, c = "" ∨ c = ".") (components p).
Proof.
  unfold os.names_start. rewrite andb_true_iff, negb_true_iff.
  assert (∀ cs : list string,
    forallb (λ c, bool_decide (c = "" ∨ c = ".")) cs = true ↔
    Forall (λ c, c = "" ∨ c = ".") cs) as Hcs; [|by rewrite Hcs].
  induction cs as [|c cs IH]; simpl; [by split; [constructor|]|].
  by rewrite andb_true_iff, bool_decide_eq_true, IH, Forall_cons.
Qed.

Lemma start_exists (p : string) (st : state) :
  os.names_start p = true → os.path_exists p st = true.
Proof. intros Hs. unfold os.path_exists, os.stat. by rewrite Hs. Qed.

Lemma isdir_resolve (p : string) (st : state) :
  os.names_start p = false → os.path_isdir p st = true →
  ∃ q, os.resolve p st = inr q ∧ os.node_at (fs st) q = Some Dir.
Proof.
  intros Hs Hd. unfold os.path_isdir, os.stat in Hd. rewrite Hs in Hd.
  apply bool_decide_eq_true in Hd. destruct (os.resolve p st) as [|q]; [done|eauto].
Qed.

(** The head of such a path is such a path. *)
Lemma split_start (p h t : string) :
  os.names_start p = true → split p = (h, t) → is_empty h = false →
  os.names_start h = true.
Proof.
  intros [Hne Hdots]%names_start_spec Hs Hh. apply names_start_spec.
  split; [done|]. unfold split in Hs.
  destruct (rpartition p) as [h0 t0] eqn:Hp.
  destruct (rpartition_spec _ _ _ Hp) as (-> & Hns & Hend).
  injection Hs as Hhead <-.
  destruct Hend as [->|Hend]; [by subst h|].
  destruct (endswith_sep_snoc _ Hend) as [a ->].
  rewrite sapp_assoc, sapp_cons, sapp_nil in Hdots.
  rewrite components_app_sep in Hdots. apply Forall_app in Hdots as [Ha _].
  destruct (all_sep (a +:+ String sep "")) eqn:Hall.
  - rewrite andb_false_r in Hhead. subst h.
    rewrite (components_all_sep _ Hall). apply Forall_replicate. by left.
  - assert (is_empty (a +:+ String sep "") = false) as He by by destruct a.
    rewrite He in Hhead. simpl in Hhead. subst h. rewrite rstrip_sep_snoc.
    assert (all_sep a = false) as Ha0.
    { rewrite all_sep_app in Hall. simpl in Hall. by rewrite andb_true_r in Hall. }
    destruct (components_rstrip _ Ha0) as [n Hn]. rewrite Hn in Ha.
    by apply Forall_app in Ha as [? _].
Qed.

(** The head of a path that resolves exists. *)
Lemma split_head_exists (p head tail : string) (st : state) (q : path) :
  os.resolve p st = inr q → split p = (head, tail) →
  is_empty head = false → is_empty tail = false →
  os.path_exists head st = true.
Proof.
  intros Hr Hs Hh Ht. unfold split in Hs.
  destruct (rpartition p) as [h t] eqn:Hp.
  destruct (rpartition_spec _ _ _ Hp) as (-> & Hns & Hend).
  injection Hs as Hhead <-.
  destruct (all_sep h) eqn:Ha.
  - rewrite andb_false_r in Hhead. subst head.
    unfold os.path_exists, os.stat. destruct (os.names_start h); [done|].
    by rewrite (resolve_all_sep _ _ Hh Ha).
  - assert (is_empty h = false) as He by by destruct h.
    rewrite He in Hhead. simpl in Hhead. subst head.
    destruct Hend as [->|Hend]; [done|].
    destruct (endswith_sep_snoc _ Hend) as [h0 ->].
    rewrite rstrip_sep_snoc in *.
    assert (all_sep h0 = false) as Ha0.
    { rewrite all_sep_app in Ha. simpl in Ha. by rewrite andb_true_r in Ha. }
    unfold os.resolve in Hr.
    destruct (is_empty ((h0 +:+ String sep "") +:+ t)); [done|].
    rewrite sapp_assoc, sapp_cons, sapp_nil in Hr.
    rewrite components_app_sep, (components_no_sep _ Hns) in Hr.
    destruct (components_rstrip _ Ha0) as [n Hn]. rewrite Hn, <-app_assoc in Hr.
    assert (startswith_sep (h0 +:+ String sep t) = startswith_sep (rstrip_sep h0))
      as Hstart.
    { rewrite startswith_rstrip by done. destruct h0; [done|]. done. }
    rewrite Hstart in Hr.
    apply walk_prefix in Hr as (q1 & Hq1 & Hdir); [|by destruct n].
    unfold os.path_exists, os.stat. destruct (os.names_start _); [done|].
    unfold os.resolve. rewrite Hh, Hq1, Hdir.
    apply bool_decide_eq_true. eauto.
Qed.

(** [os.makedirs(name, exist_ok=True)] on an existing directory does
    nothing. *)
Lemma makedirs_leaf_existing (name : string) (st : state) :
  os.path_isdir name st = true → os.makedirs_leaf name true st = Ok tt st.
Proof.
  intros Hdir. unfold os.makedirs_leaf, try_except, os.mkdir.
  destruct (os.names_start name) eqn:Hs.
  - simpl. unfold bind, get. by rewrite Hdir.
  - destruct (isdir_resolve _ _ Hs Hdir) as (q & Hr & Hq).
    rewrite (resolve_strip_trailing _ _ _ Hr), Hq. simpl.
    unfold bind, get. by rewrite Hdir.
Qed.

Lemma makedirs_rec_existing (fuel : nat) (name : string) (st : state) :
  os.path_isdir name st = true → os.makedirs_rec fuel name true st = Ok tt st.
Proof.
  intros Hdir. rewrite <-(makedirs_leaf_existing _ _ Hdir).
  assert (∀ head tail,
    (let '(head1, tail1) := split name in
     if is_empty tail1 then split head1 else (head1, tail1)) = (head, tail) →
    negb (is_empty head) && negb (is_empty tail) && negb (os.path_exists head st)
    = false) as Hcond.
  { intros head tail. destruct (split name) as [head1 tail1] eqn:Hs1.
    destruct (os.names_start name) eqn:Hstart.
    { destruct (is_empty tail1) eqn:Ht1.
      - intros Hs2.
        destruct (is_empty head) eqn:Hh; [done|].
        destruct (is_empty tail) eqn:Ht; [by rewrite andb_false_r|]. simpl.
        apply negb_false_iff, start_exists.
        destruct (is_empty head1) eqn:Hh1.
        + apply is_empty_true in Hh1 as ->. by injection Hs2 as <- <-.
        + eapply split_start; [|exact Hs2|done]. by eapply split_start.
      - intros [= <- <-].
        destruct (is_empty head1) eqn:Hh; [done|]. rewrite Ht1. simpl.
        apply negb_false_iff, start_exists. by eapply split_start. }
    destruct (isdir_resolve _ _ Hstart Hdir) as (q & Hr & _).
    destruct (is_empty tail1) eqn:Ht1.
    - intros Hs2.
      destruct (is_empty head) eqn:Hh; [done|].
      destruct (is_empty tail) eqn:Ht; [by rewrite andb_false_r|]. simpl.
      apply negb_false_iff.
      assert (∃ q1, os.resolve head1 st = inr q1) as [q1 Hr1].
      { unfold split in Hs1. destruct (rpartition name) as [h t] eqn:Hp.
        destruct (rpartition_spec _ _ _ Hp) as (-> & _ & _).
        injection Hs1 as <- ->. apply is_empty_true in Ht1 as ->.
        rewrite sapp_nil_r in Hr.
        destruct (all_sep h) eqn:Ha.
        - rewrite andb_false_r. eauto.
        - pose proof (resolve_inr_nonempty _ _ _ Hr) as ->. simpl.
          exists q. by apply resolve_rstrip. }
      by eapply split_head_exists.
    - intros [= <- <-].
      destruct (is_empty head1) eqn:Hh; [done|]. rewrite Ht1. simpl.
      apply negb_false_iff. by eapply split_head_exists. }
  destruct fuel; simpl;
    destruct (split name) as [head1 tail1];
    destruct (if is_empty tail1 then split head1 else (head1, tail1))
      as [head tail] eqn:Hs; unfold bind, get;
    by rewrite (Hcond _ _ eq_refl).
Qed.

Lemma makedirs_existing (name : string) (st : state) :
  os.path_isdir name st = true → os.makedirs name true st = Ok tt st.
Proof. apply makedirs_rec_existing. Qed.

(** ** [os.makedirs] only adds directories *)

Definition final {A} (o : outcome A) : state :=
  match o with
  | Ok _ st => st
  | Raise _ st => st
  end.

(** From [st] to [st'] nothing changed but directories that were added. *)
Definition grows (st st' : state) : Prop :=
  cwd st' = cwd st ∧ stdout st' = stdout st ∧
  ∀ k, fs st' !! k = fs st !! k ∨ (fs st !! k = None ∧ fs st' !! k = Some Dir).

Lemma grows_refl (st : state) : grows st st.
Proof. split_and!; auto. Qed.

Lemma grows_trans (st1 st2 st3 : state) : grows st1 st2 → grows st2 st3 → grows st1 st3.
Proof.
  intros (Hc & Ho & Hk) (Hc' & Ho' & Hk'). split_and!; [congruence..|].
  intros k. destruct (Hk k) as [Heq|[Hn Hd]], (Hk' k) as [Heq'|[Hn' Hd']];
    try (left; congruence); try (right; split; congruence).
Qed.

Lemma mkdir_grows (p : string) (st : state) : grows st (final (os.mkdir p st)).
Proof.
  unfold os.mkdir. destruct (os.names_start p); [apply grows_refl|].
  destruct (os.resolve _ st) as [|q]; [apply grows_refl|].
  destruct (os.node_at (fs st) q) eqn:Hq; [apply grows_refl|].
  split_and!; [done..|]. intros k. simpl.
  destruct (decide (q = k)) as [<-|]; [|left; by rewrite lookup_insert_ne].
  right. rewrite lookup_insert_eq. by destruct q.
Qed.

Lemma makedirs_leaf_grows (name : string) (exist_ok : bool) (st : state) :
  grows st (final (os.makedirs_leaf name exist_ok st)).
Proof.
  unfold os.makedirs_leaf, try_except. pose proof (mkdir_grows name st) as H.
  destruct (os.mkdir name st) as [[] st'|e st']; [done|]. simpl in H.
  destruct (is_OSError e); [|done]. unfold bind, get.
  by destruct (negb exist_ok || negb (os.path_isdir name st')).
Qed.

Lemma makedirs_rec_grows (fuel : nat) (name : string) (exist_ok : bool) (st : state) :
  grows st (final (os.makedirs_rec fuel name exist_ok st)).
Proof.
  revert name st. induction fuel as [|fuel IH]; intros name st; simpl;
    destruct (split name) as [head1 tail1];
    destruct (if is_empty tail1 then split head1 else (head1, tail1))
      as [head tail]; unfold bind at 1, get;
    destruct (negb (is_empty head) && negb (is_empty tail) &&
              negb (os.path_exists head st));
    try apply makedirs_leaf_grows; try apply grows_refl.
  unfold bind, try_except. pose proof (IH head st) as H.
  destruct (os.makedirs_rec fuel head exist_ok st) as [[] st'|e st']; simpl in H.
  - destruct (decide (tail = ".")); [done|].
    eapply grows_trans; [done|]. apply makedirs_leaf_grows.
  - destruct (is_FileExistsError e); [|done]. simpl.
    destruct (decide (tail = ".")); [done|].
    eapply grows_trans; [done|]. apply makedirs_leaf_grows.
Qed.

Lemma makedirs_grows (name : string) (exist_ok : bool) (st : state) :
  grows st (final (os.makedirs name exist_ok st)).
Proof. apply makedirs_rec_grows. Qed.

End makedirs_facts.

(** * Metadata rows *)

(** The data model of the table: a relative path and a class label. *)
Record MetadataRow := {
  relative_path : string;
  class_label : string
}.

(** The three paths the loop body computes for a row. *)
Definition source_file (r : MetadataRow) : string :=
  posixpath.join base_dir (relative_path r).
Definition genre_dir (r : MetadataRow) : string :=
  posixpath.join save_dir (class_label r).
Definition dest_file (r : MetadataRow) : string :=
  posixpath.join (genre_dir r) (posixpath.basename (source_file r)).

(** [row] of the frame carries the strings of [r] in its two columns. *)
Definition row_of (df : pd.DataFrame) (row : list pd.value) (r : MetadataRow) : Prop :=
  pd.loc df row "path" = inr (pd.VStr (relative_path r)) ∧
  pd.loc df row "classname" = inr (pd.VStr (class_label r)).

Definition table (df : pd.DataFrame) (rows : list MetadataRow) : Prop :=
  Forall2 (row_of df) (pd.data df) rows.

(** A row as the data model means it: the path is relative, made of entry
    names, and lies outside of the output tree [test/]; the label is the name
    of a subdirectory. *)
Definition valid_row (r : MetadataRow) : bool :=
  forallb path_facts.is_name (posixpath.components (relative_path r))
  && negb (bool_decide (head (posixpath.components (relative_path r)) = Some "test"))
  && path_facts.is_name (class_label r).

(** Canonical locations, below the working directory [c]. *)
Definition base_key (c : path) : path := c ++ ["GT-Music-Genre"].
Definition test_key (c : path) : path := c ++ ["GT-Music-Genre"; "test"].
Definition src_key (c : path) (r : MetadataRow) : path :=
  c ++ "GT-Music-Genre" :: posixpath.components (relative_path r).
Definition dir_key (c : path) (r : MetadataRow) : path :=
  c ++ ["GT-Music-Genre"; "test"; class_label r].
Definition dst_key (c : path) (r : MetadataRow) : path :=
  c ++ ["GT-Music-Genre"; "test"; class_label r;
        posixpath.basename (relative_path r)].

Module row_facts.
Import posixpath path_facts fs_facts.

Section valid.
Variable r : MetadataRow.
Hypothesis Hvalid : valid_row r = true.

Lemma valid_components :
  Forall (λ c, is_name c = true) (components (relative_path r)).
Proof.
  unfold valid_row in Hvalid.
  apply andb_true_iff in Hvalid as [[H _]%andb_true_iff _].
  apply Forall_forall. intros c Hc. rewrite forallb_forall in H.
  by apply H, list_elem_of_In.
Qed.

Lemma valid_head : head (components (relative_path r)) ≠ Some "test".
Proof.
  unfold valid_row in Hvalid.
  apply andb_true_iff in Hvalid as [[_ H]%andb_true_iff _].
  by apply negb_true_iff, bool_decide_eq_false in H.
Qed.

Lemma valid_label : is_name (class_label r) = true.
Proof. unfold valid_row in Hvalid. by apply andb_true_iff in Hvalid as [_ ?]. Qed.

Lemma valid_basename : is_name (basename (relative_path r)) = true.
Proof.
  pose proof valid_components as HF.
  pose proof (basename_last (relative_path r)) as Hl.
  apply last_Some in Hl as [l' Hl]. rewrite Hl in HF.
  by apply Forall_app in HF as [_ ?%Forall_inv].
Qed.

Lemma valid_relative : startswith_sep (relative_path r) = false.
Proof.
  pose proof valid_components as HF.
  destruct (relative_path r) as [|x p]; [done|]. simpl in *.
  destruct (is_sep x); [|done]. by apply Forall_inv in HF.
Qed.

Lemma source_file_eq :
  source_file r = "GT-Music-Genre" +:+ String sep (relative_path r).
Proof. unfold source_file. by rewrite join_relative by (done || apply valid_relative). Qed.

Lemma genre_dir_eq :
  genre_dir r = "GT-Music-Genre/test" +:+ String sep (class_label r).
Proof.
  unfold genre_dir. rewrite join_relative; [done..|].
  apply is_name_startswith, valid_label.
Qed.

Lemma source_basename : basename (source_file r) = basename (relative_path r).
Proof. by rewrite source_file_eq, basename_app_sep. Qed.

Lemma genre_dir_basename : basename (genre_dir r) = class_label r.
Proof.
  rewrite genre_dir_eq, basename_app_sep.
  apply basename_name, is_name_no_sep, valid_label.
Qed.

Lemma dest_file_eq :
  dest_file r = genre_dir r +:+ String sep (basename (relative_path r)).
Proof.
  unfold dest_file. rewrite source_basename.
  assert (is_name (basename (genre_dir r)) = true) as [??]%name_tail
    by (rewrite genre_dir_basename; apply valid_label).
  rewrite join_relative; [done..|].
  apply is_name_startswith, valid_basename.
Qed.

Lemma dest_basename : basename (dest_file r) = basename (relative_path r).
Proof.
  rewrite dest_file_eq, basename_app_sep.
  apply basename_name, basename_no_sep.
Qed.

Lemma source_components :
  components (source_file r) = "GT-Music-Genre" :: components (relative_path r).
Proof. by rewrite source_file_eq, components_app_sep. Qed.

Lemma genre_dir_components :
  components (genre_dir r) = ["GT-Music-Genre"; "test"; class_label r].
Proof.
  rewrite genre_dir_eq, components_app_sep.
  by rewrite (components_no_sep (class_label r))
    by apply is_name_no_sep, valid_label.
Qed.

Lemma dest_components :
  components (dest_file r) =
  ["GT-Music-Genre"; "test"; class_label r; basename (relative_path r)].
Proof.
  rewrite dest_file_eq, components_app_sep, genre_dir_components.
  by rewrite (components_no_sep (basename _)) by apply basename_no_sep.
Qed.

(** The three canonical locations are pairwise different. *)
Lemma src_dst_ne (c : path) (r' : MetadataRow) : src_key c r ≠ dst_key c r'.
Proof.
  unfold src_key, dst_key. intros H%app_inv_head. injection H as H.
  pose proof valid_head as Hh. rewrite H in Hh. done.
Qed.

Lemma src_dir_ne (c : path) (r' : MetadataRow) : src_key c r ≠ dir_key c r'.
Proof.
  unfold src_key, dir_key. intros H%app_inv_head. injection H as H.
  pose proof valid_head as Hh. rewrite H in Hh. done.
Qed.

Lemma src_test_ne (c : path) : src_key c r ≠ test_key c.
Proof.
  unfold src_key, test_key. intros H%app_inv_head. injection H as H.
  pose proof valid_head as Hh. rewrite H in Hh. done.
Qed.

Lemma src_base_ne (c : path) : src_key c r ≠ base_key c.
Proof.
  unfold src_key, base_key. intros H%app_inv_head. injection H as H.
  by destruct (components_not_nil (relative_path r)).
Qed.

End valid.

Lemma dst_dir_ne (c : path) (r r' : MetadataRow) : dst_key c r ≠ dir_key c r'.
Proof. unfold dst_key, dir_key. by intros H%app_inv_head. Qed.

End row_facts.

(** * The system calls on paths made of names *)

Module call_facts.
Import posixpath path_facts fs_facts.

(** [p] spells the names [cs], relative to the working directory. *)
Definition named (p : string) (cs : list string) : Prop :=
  components p = cs ∧ Forall (λ c, is_name c = true) cs.

Lemma named_relative (p : string) (cs : list string) :
  named p cs → is_empty p = false ∧ startswith_sep p = false.
Proof.
  intros [<- HF]. destruct p as [|x p]; simpl in *.
  - by apply Forall_inv in HF.
  - split; [done|]. destruct (is_sep x); [|done]. by apply Forall_inv in HF.
Qed.

Lemma named_basename (p : string) (cs : list string) (c : string) :
  named p (cs ++ [c]) → basename p = c ∧ is_name c = true.
Proof.
  intros [Hc HF]. pose proof (basename_last p) as Hl.
  rewrite Hc, last_snoc in Hl. injection Hl as <-.
  by apply Forall_app in HF as [_ ?%Forall_inv].
Qed.

Lemma path_exists_contents (p : string) (st : state) :
  os.path_exists p st = bool_decide (is_Some (contents p st)).
Proof. reflexivity. Qed.

Lemma path_isdir_contents (p : string) (st : state) :
  os.path_isdir p st = bool_decide (contents p st = Some Dir).
Proof. reflexivity. Qed.

(** A path that begins with a name does not name the start directory. *)
Lemma named_not_start (p : string) (cs : list string) :
  named p cs → os.names_start p = false.
Proof.
  intros [Hc HF]. apply not_true_is_false.
  intros [_ Hdots]%makedirs_facts.names_start_spec. rewrite Hc in Hdots.
  pose proof (components_not_nil p) as Hne. rewrite Hc in Hne.
  destruct cs as [|c cs]; [done|].
  apply Forall_cons in HF as [(? & ? & _)%is_name_not_special _].
  apply Forall_cons in Hdots as [[?|?] _]; done.
Qed.

Lemma resolve_named (p : string) (cs : list string) (st : state) :
  named p cs → os.resolve p st = os.walk (fs st) (cwd st) cs.
Proof.
  intros Hn. destruct (named_relative _ _ Hn) as [He Hs].
  destruct Hn as [<- _]. unfold os.resolve. by rewrite He, Hs.
Qed.

Lemma contents_named (p : string) (cs : list string) (st : state) :
  wf (fs st) → named p cs → contents p st = os.node_at (fs st) (cwd st ++ cs).
Proof.
  intros Hwf Hn. unfold contents, os.stat.
  rewrite (named_not_start _ _ Hn), (resolve_named _ _ _ Hn).
  apply walk_names_lookup; [done|]. by destruct Hn.
Qed.

Lemma resolve_named_present (p : string) (cs : list string) (st : state) :
  wf (fs st) → named p cs → is_Some (os.node_at (fs st) (cwd st ++ cs)) →
  os.resolve p st = inr (cwd st ++ cs).
Proof.
  intros Hwf Hn Hin. rewrite (resolve_named _ _ _ Hn).
  apply walk_names_present; [done| |done]. by destruct Hn.
Qed.

Lemma resolve_named_parent (p : string) (cs : list string) (c : string) (st : state) :
  wf (fs st) → named p (cs ++ [c]) →
  os.node_at (fs st) (cwd st ++ cs) = Some Dir →
  os.resolve p st = inr (cwd st ++ cs ++ [c]).
Proof.
  intros Hwf Hn Hdir. rewrite (resolve_named _ _ _ Hn).
  apply walk_names_parent; [done| |done]. by destruct Hn.
Qed.

(** ** [mkdir] and [makedirs] of a name in an existing directory *)

Lemma mkdir_named (p : string) (cs : list string) (c : string) (st : state) :
  wf (fs st) → named p (cs ++ [c]) →
  os.node_at (fs st) (cwd st ++ cs) = Some Dir →
  os.mkdir p st =
  match fs st !! (cwd st ++ cs ++ [c]) with
  | Some _ => Raise FileExistsError st
  | None => Ok tt (set_fs (<[cwd st ++ cs ++ [c] := Dir]> (fs st)) st)
  end.
Proof.
  intros Hwf Hn Hdir. unfold os.mkdir. rewrite (named_not_start _ _ Hn).
  destruct (named_basename _ _ _ Hn) as [Hb Hc].
  rewrite strip_trailing_sep_name by by rewrite Hb.
  rewrite (resolve_named_parent _ _ _ _ Hwf Hn Hdir).
  by rewrite app_assoc, node_at_snoc.
Qed.

Lemma makedirs_leaf_named (p : string) (cs : list string) (c : string) (st : state) :
  wf (fs st) → named p (cs ++ [c]) →
  os.node_at (fs st) (cwd st ++ cs) = Some Dir →
  os.makedirs_leaf p true st =
  match fs st !! (cwd st ++ cs ++ [c]) with
  | Some Dir => Ok tt st
  | Some (File _) => Raise FileExistsError st
  | None => Ok tt (set_fs (<[cwd st ++ cs ++ [c] := Dir]> (fs st)) st)
  end.
Proof.
  intros Hwf Hn Hdir. unfold os.makedirs_leaf, try_except.
  rewrite (mkdir_named _ _ _ _ Hwf Hn Hdir).
  destruct (fs st !! _) as [n|] eqn:Hk; [|done]. simpl.
  unfold bind, get. rewrite path_isdir_contents.
  rewrite (contents_named _ _ _ Hwf Hn), app_assoc, node_at_snoc.
  rewrite <-app_assoc, Hk. by destruct n.
Qed.

(** When the parent exists, [makedirs] does not recurse. *)
Lemma makedirs_rec_leaf (fuel : nat) (name head tail : string) (st : state) :
  split name = (head, tail) → is_empty tail = false →
  os.path_exists head st = true →
  os.makedirs_rec fuel name true st = os.makedirs_leaf name true st.
Proof.
  intros Hs Ht He. destruct fuel; simpl; rewrite Hs, Ht; unfold bind, get;
    by rewrite He, andb_false_r.
Qed.

Lemma split_app_name (a c : string) :
  is_empty a = false → endswith_sep a = false → no_sep c = true →
  split (a +:+ String sep c) = (a, c).
Proof.
  intros Ha He Hc. unfold split.
  rewrite rpartition_app_sep, rpartition_no_sep by done. simpl.
  assert (rstrip_sep (a +:+ String sep "") = a) as ->.
  { clear Ha. induction a as [|x a IH]; [done|]. rewrite sapp_cons. simpl.
    destruct a as [|y a].
    - simpl in *. rewrite He. done.
    - rewrite IH by done. by rewrite andb_false_r. }
  assert (all_sep (a +:+ String sep "") = false) as ->.
  { rewrite all_sep_app, (all_sep_endswith a) by done. done. }
  rewrite is_empty_app, Ha. done.
Qed.

(** ** Moving a regular file between two named paths *)

Lemma named_not_special (p : string) (cs : list string) (c : string) :
  named p (cs ++ [c]) → os.special (os.last_component p) = false.
Proof.
  intros [Hb Hc]%named_basename.
  rewrite last_component_name by by rewrite Hb.
  rewrite Hb. unfold is_name in Hc.
  by apply andb_true_iff in Hc as [?%negb_true_iff _].
Qed.

Lemma rename_file_named (src dst : string) (ss ds : list string) (s d data : string)
    (st : state) :
  wf (fs st) → named src (ss ++ [s]) → named dst (ds ++ [d]) →
  fs st !! (cwd st ++ ss ++ [s]) = Some (File data) →
  os.node_at (fs st) (cwd st ++ ds) = Some Dir →
  cwd st ++ ss ++ [s] ≠ cwd st ++ ds ++ [d] →
  fs st !! (cwd st ++ ds ++ [d]) ≠ Some Dir →
  os.rename src dst st =
  Ok tt (set_fs (<[cwd st ++ ds ++ [d] := File data]>
                   (delete (cwd st ++ ss ++ [s]) (fs st))) st).
Proof.
  intros Hwf Hsrc Hdst Hfile Hdir Hne Hfree. unfold os.rename.
  assert (os.node_at (fs st) (cwd st ++ ss ++ [s]) = Some (File data)) as Hnode
    by by rewrite app_assoc, node_at_snoc, <-app_assoc.
  rewrite (resolve_named_present _ _ _ Hwf Hsrc) by by rewrite Hnode.
  rewrite Hnode.
  destruct (named_basename _ _ _ Hdst) as [Hb Hd].
  rewrite strip_trailing_sep_name by by rewrite Hb.
  rewrite (resolve_named_parent _ _ _ _ Hwf Hdst Hdir).
  rewrite (named_not_special _ _ _ Hsrc), (named_not_special _ _ _ Hdst). simpl.
  assert (endswith_sep dst = false) as ->.
  { eapply name_tail. by rewrite Hb. }
  rewrite decide_False by done.
  rewrite (app_assoc _ ds), node_at_snoc, <-app_assoc.
  by destruct (fs st !! (cwd st ++ ds ++ [d])) as [[]|].
Qed.

Lemma move_file_named (src dst : string) (ss ds : list string) (s d data : string)
    (st : state) :
  wf (fs st) → named src (ss ++ [s]) → named dst (ds ++ [d]) →
  fs st !! (cwd st ++ ss ++ [s]) = Some (File data) →
  os.node_at (fs st) (cwd st ++ ds) = Some Dir →
  cwd st ++ ss ++ [s] ≠ cwd st ++ ds ++ [d] →
  fs st !! (cwd st ++ ds ++ [d]) ≠ Some Dir →
  shutil.move src dst st =
  Ok tt (set_fs (<[cwd st ++ ds ++ [d] := File data]>
                   (delete (cwd st ++ ss ++ [s]) (fs st))) st).
Proof.
  intros Hwf Hsrc Hdst Hfile Hdir Hne Hfree. unfold shutil.move.
  rewrite path_isdir_contents, (contents_named _ _ _ Hwf Hdst).
  rewrite (app_assoc _ ds), node_at_snoc, <-app_assoc.
  rewrite bool_decide_eq_false_2 by done.
  unfold shutil.move_to, try_except.
  by rewrite (rename_file_named _ _ _ _ _ _ _ _ Hwf Hsrc Hdst Hfile Hdir Hne Hfree).
Qed.

(** ** The tree stays a tree *)

Lemma node_at_insert_ne (m : gmap path node) (k j : path) (n : node) :
  k ≠ j → os.node_at (<[k := n]> m) j = os.node_at m j.
Proof. intros Hne. destruct j; [done|]. simpl. by rewrite lookup_insert_ne. Qed.

Lemma removelast_ne (k : path) : k ≠ [] → removelast k ≠ k.
Proof.
  intros Hk Heq. apply (f_equal length) in Heq.
  destruct k as [|x k _] using rev_ind; [done|].
  rewrite removelast_last, length_app in Heq. simpl in Heq. lia.
Qed.

Lemma wf_insert (m : gmap path node) (k : path) (n : node) :
  wf m → k ≠ [] → os.node_at m (removelast k) = Some Dir →
  (n = Dir ∨ m !! k ≠ Some Dir) →
  wf (<[k := n]> m).
Proof.
  intros [Hroot Hwf] Hk Hparent Hn. split; [by rewrite lookup_insert_ne|].
  intros j nj. destruct (decide (k = j)) as [<-|Hkj].
  - intros _. rewrite node_at_insert_ne by (symmetry; by apply removelast_ne). done.
  - rewrite lookup_insert_ne by done. intros Hj%Hwf.
    destruct (decide (k = removelast j)) as [Heq|Hne].
    + rewrite <-Heq in *. rewrite node_at_lookup in * by done.
      rewrite lookup_insert_eq. naive_solver.
    + by rewrite node_at_insert_ne.
Qed.

Lemma wf_delete_file (m : gmap path node) (k : path) :
  wf m → m !! k ≠ Some Dir → wf (delete k m).
Proof.
  intros [Hroot Hwf] Hk. split; [by rewrite lookup_delete_None; right|].
  intros j nj [Hkj Hj]%lookup_delete_Some. apply Hwf in Hj.
  destruct (removelast j) as [|x p] eqn:Hp; [done|]. simpl in *.
  rewrite lookup_delete_ne; [done|]. congruence.
Qed.

End call_facts.

(** * What one row does to the tree *)

(** The effect of [os.makedirs] on an existing parent. *)
Definition ensure_dir (d : path) (m : gmap path node) : gmap path node :=
  match m !! d with
  | Some _ => m
  | None => <[d := Dir]> m
  end.

(** The effect of the loop body for the row [r], below the working
    directory [c]. *)
Definition place (c : path) (r : MetadataRow) (m : gmap path node) : gmap path node :=
  let m1 := ensure_dir (dir_key c r) m in
  match m1 !! src_key c r with
  | Some (File data) => <[dst_key c r := File data]> (delete (src_key c r) m1)
  | _ => m1
  end.

(** The lines the loop body prints for [r]. *)
Definition report (c : path) (r : MetadataRow) (m : gmap path node) : list string :=
  match m !! src_key c r with
  | Some _ => []
  | None => [warning (source_file r)]
  end.

(** The loop body can run for [r]: the tree holds the output root, and
    nothing of another kind sits where the row's directory, destination and
    source are. *)
Record ready (r : MetadataRow) (st : state) : Prop := {
  ready_wf : fs_facts.wf (fs st);
  ready_test : fs st !! test_key (cwd st) = Some Dir;
  ready_dir : ∀ data, fs st !! dir_key (cwd st) r ≠ Some (File data);
  ready_dst : fs st !! dst_key (cwd st) r ≠ Some Dir;
  ready_src : fs st !! src_key (cwd st) r ≠ Some Dir
}.

Module body_facts.
Import posixpath path_facts fs_facts call_facts row_facts.

Lemma named_source (r : MetadataRow) :
  valid_row r = true →
  named (source_file r) ("GT-Music-Genre" :: components (relative_path r)).
Proof.
  intros Hv. split; [by apply source_components|].
  constructor; [done|]. by apply valid_components.
Qed.

Lemma named_genre_dir (r : MetadataRow) :
  valid_row r = true →
  named (genre_dir r) (["GT-Music-Genre"; "test"] ++ [class_label r]).
Proof.
  intros Hv. split; [by apply genre_dir_components|].
  repeat constructor. by apply valid_label.
Qed.

Lemma named_dest (r : MetadataRow) :
  valid_row r = true →
  named (dest_file r)
    (["GT-Music-Genre"; "test"; class_label r] ++ [basename (relative_path r)]).
Proof.
  intros Hv. split; [by apply dest_components|].
  repeat constructor; [by apply valid_label|by apply valid_basename].
Qed.

Lemma named_save_dir : named save_dir (["GT-Music-Genre"] ++ ["test"]).
Proof. split; [done|]. by repeat constructor. Qed.

Lemma named_base_dir : named base_dir ["GT-Music-Genre"].
Proof. split; [done|]. by repeat constructor. Qed.

Lemma ensure_dir_lookup (d k : path) (m : gmap path node) :
  ensure_dir d m !! k =
  if decide (d = k) then Some (default Dir (m !! d)) else m !! k.
Proof.
  unfold ensure_dir. case_decide as Hk; [subst k|].
  - destruct (m !! d) eqn:Hd; [by rewrite Hd|]. by rewrite lookup_insert_eq.
  - destruct (m !! d); [done|]. by rewrite lookup_insert_ne.
Qed.

Lemma ensure_dir_ne (d k : path) (m : gmap path node) :
  d ≠ k → ensure_dir d m !! k = m !! k.
Proof. intros. by rewrite ensure_dir_lookup, decide_False. Qed.

Lemma wf_ensure_dir (d : path) (m : gmap path node) :
  wf m → d ≠ [] → os.node_at m (removelast d) = Some Dir → wf (ensure_dir d m).
Proof.
  intros Hwf Hd Hp. unfold ensure_dir. destruct (m !! d); [done|].
  apply wf_insert; auto.
Qed.

(** [os.makedirs(genre_dir, exist_ok=True)] *)
Lemma makedirs_genre_dir (r : MetadataRow) (st : state) :
  valid_row r = true → ready r st →
  os.makedirs (genre_dir r) true st =
  Ok tt (set_fs (ensure_dir (dir_key (cwd st) r) (fs st)) st).
Proof.
  intros Hv [Hwf Htest Hdir _ _]. unfold os.makedirs.
  assert (os.node_at (fs st) (cwd st ++ ["GT-Music-Genre"; "test"]) = Some Dir)
    as Hnode by by rewrite node_at_app.
  rewrite (makedirs_rec_leaf _ _ "GT-Music-Genre/test" (class_label r)).
  - rewrite (makedirs_leaf_named _ _ _ _ Hwf (named_genre_dir r Hv) Hnode).
    unfold ensure_dir, dir_key in *. simpl.
    destruct (fs st !! (cwd st ++ ["GT-Music-Genre"; "test"; class_label r]))
      as [[data|]|] eqn:Hk; [by destruct (Hdir data)| |done].
    by destruct st.
  - rewrite genre_dir_eq by done.
    apply split_app_name; [done..|]. by apply is_name_no_sep, valid_label.
  - pose proof (valid_label r Hv) as (? & _)%is_name_not_special.
    by destruct (class_label r).
  - rewrite path_exists_contents.
    rewrite (contents_named "GT-Music-Genre/test" _ st Hwf named_save_dir).
    simpl. by rewrite Hnode.
Qed.

(** The loop body, for a row of the data model. *)
Lemma process_row_place (df : pd.DataFrame) (row : list pd.value)
    (r : MetadataRow) (st : state) :
  row_of df row r → valid_row r = true → ready r st →
  process_row df row st =
  Ok tt (State (place (cwd st) r (fs st)) (cwd st)
               (stdout st ++ report (cwd st) r (fs st))).
Proof.
  intros [Hp Hg] Hv Hready. pose proof Hready as [Hwf Htest Hdir Hdst Hsrc].
  unfold process_row, bind, pd.getitem. rewrite Hp, Hg. simpl.
  fold (source_file r). fold (genre_dir r).
  rewrite (makedirs_genre_dir _ _ Hv Hready).
  fold (dest_file r). unfold get.
  set (m1 := ensure_dir (dir_key (cwd st) r) (fs st)).
  set (st1 := set_fs m1 st).
  assert (wf (fs st1)) as Hwf1.
  { apply wf_ensure_dir; [done|by destruct (cwd st)|].
    unfold dir_key.
    replace (cwd st ++ ["GT-Music-Genre"; "test"; class_label r])
      with ((cwd st ++ ["GT-Music-Genre"; "test"]) ++ [class_label r])
      by by rewrite <-app_assoc.
    rewrite removelast_last, node_at_app. done. }
  assert (m1 !! src_key (cwd st) r = fs st !! src_key (cwd st) r) as Hsrc1.
  { apply ensure_dir_ne. apply not_eq_sym. by apply src_dir_ne. }
  rewrite path_exists_contents.
  rewrite (contents_named _ _ _ Hwf1 (named_source r Hv)).
  rewrite node_at_app.
  change (fs st1 !! _) with (m1 !! src_key (cwd st) r).
  unfold place, report. fold m1. rewrite Hsrc1.
  destruct (fs st !! src_key (cwd st) r) as [[data|]|] eqn:Hk; [|done|].
  - rewrite bool_decide_eq_true_2 by eauto.
    pose proof (named_source r Hv) as Hns.
    pose proof (named_dest r Hv) as Hnd.
    pose proof (components_not_nil (relative_path r)) as Hne.
    destruct (components (relative_path r)) as [|c0 cs _] eqn:Hc using rev_ind;
      [done|].
    rewrite app_comm_cons in Hns.
    assert (cwd st ++ ("GT-Music-Genre" :: cs) ++ [c0] = src_key (cwd st) r)
      as Hsk by (unfold src_key; by rewrite Hc).
    assert (cwd st ++ ["GT-Music-Genre"; "test"; class_label r] ++
              [basename (relative_path r)] = dst_key (cwd st) r) as Hdk by done.
    rewrite (move_file_named _ _ _ _ _ _ data st1 Hwf1 Hns Hnd).
    + change (cwd st1) with (cwd st). rewrite Hsk, Hdk.
      by rewrite app_nil_r.
    + change (cwd st1) with (cwd st). by rewrite Hsk.
    + change (cwd st1) with (cwd st). rewrite node_at_app.
      change (fs st1) with m1. unfold m1.
      rewrite ensure_dir_lookup, decide_True by done.
      destruct (fs st !! dir_key (cwd st) r) as [[data'|]|] eqn:Hd;
        [by destruct (Hdir data')|done..].
    + change (cwd st1) with (cwd st). rewrite Hsk, Hdk.
      by apply src_dst_ne.
    + change (cwd st1) with (cwd st). rewrite Hdk.
      change (fs st1) with m1. unfold m1. rewrite ensure_dir_ne; [done|].
      apply not_eq_sym, dst_dir_ne.
  - rewrite bool_decide_eq_false_2 by (by intros [? ?]).
    unfold print. simpl. done.
Qed.

End body_facts.

(** * What the loop does to the tree *)

Fixpoint arrange (c : path) (rows : list MetadataRow) (m : gmap path node)
    : gmap path node :=
  match rows with
  | [] => m
  | r :: rows' => arrange c rows' (place c r m)
  end.

Fixpoint reports (c : path) (rows : list MetadataRow) (m : gmap path node)
    : list string :=
  match rows with
  | [] => []
  | r :: rows' => report c r m ++ reports c rows' (place c r m)
  end.

Module loop_facts.
Import posixpath path_facts fs_facts call_facts row_facts body_facts.

Lemma place_lookup_dir (c : path) (r r' : MetadataRow) (m : gmap path node) :
  valid_row r = true →
  place c r m !! dir_key c r' =
  if decide (dir_key c r = dir_key c r') then Some (default Dir (m !! dir_key c r))
  else m !! dir_key c r'.
Proof.
  intros Hv. unfold place.
  assert (∀ m', <[dst_key c r := m']> (delete (src_key c r)
            (ensure_dir (dir_key c r) m)) !! dir_key c r' =
          ensure_dir (dir_key c r) m !! dir_key c r') as Hmove.
  { intros m'. rewrite lookup_insert_ne by apply dst_dir_ne.
    by rewrite lookup_delete_ne by by apply src_dir_ne. }
  destruct (ensure_dir (dir_key c r) m !! src_key c r) as [[data|]|];
    rewrite ?Hmove; apply ensure_dir_lookup.
Qed.

Lemma place_lookup_test (c : path) (r : MetadataRow) (m : gmap path node) :
  valid_row r = true → place c r m !! test_key c = m !! test_key c.
Proof.
  intros Hv. unfold place.
  assert (dir_key c r ≠ test_key c) as Hdt
    by (unfold dir_key, test_key; by intros ?%app_inv_head).
  assert (dst_key c r ≠ test_key c) as Hst
    by (unfold dst_key, test_key; by intros ?%app_inv_head).
  destruct (ensure_dir (dir_key c r) m !! src_key c r) as [[data|]|];
    rewrite ?lookup_insert_ne, ?lookup_delete_ne, ?ensure_dir_ne;
    auto using src_test_ne.
Qed.

(** No directory appears where a row's file is or goes. *)
Lemma place_not_dir (c k : path) (r : MetadataRow) (m : gmap path node) :
  k ≠ dir_key c r → m !! k ≠ Some Dir → place c r m !! k ≠ Some Dir.
Proof.
  intros Hk Hm. unfold place.
  assert (ensure_dir (dir_key c r) m !! k ≠ Some Dir) as Hm1
    by by rewrite ensure_dir_ne.
  destruct (ensure_dir (dir_key c r) m !! src_key c r) as [[data|]|]; try done.
  destruct (decide (dst_key c r = k)) as [<-|]; [by rewrite lookup_insert_eq|].
  rewrite lookup_insert_ne by done.
  destruct (decide (src_key c r = k)) as [<-|]; [by rewrite lookup_delete_eq|].
  by rewrite lookup_delete_ne.
Qed.

Lemma wf_place (r : MetadataRow) (st : state) :
  valid_row r = true → ready r st → wf (place (cwd st) r (fs st)).
Proof.
  intros Hv [Hwf Htest Hdir Hdst Hsrc]. unfold place.
  set (m1 := ensure_dir (dir_key (cwd st) r) (fs st)).
  assert (wf m1) as Hwf1.
  { apply wf_ensure_dir; [done|by destruct (cwd st)|].
    unfold dir_key.
    replace (cwd st ++ ["GT-Music-Genre"; "test"; class_label r])
      with ((cwd st ++ ["GT-Music-Genre"; "test"]) ++ [class_label r])
      by by rewrite <-app_assoc.
    rewrite removelast_last, node_at_app. done. }
  destruct (m1 !! src_key (cwd st) r) as [[data|]|] eqn:Hk; [|done..].
  apply wf_insert.
  - apply wf_delete_file; [done|]. by rewrite Hk.
  - by destruct (cwd st).
  - unfold dst_key.
    replace (cwd st ++ ["GT-Music-Genre"; "test"; class_label r;
                        basename (relative_path r)])
      with (dir_key (cwd st) r ++ [basename (relative_path r)])
      by (unfold dir_key; by rewrite <-app_assoc).
    rewrite removelast_last. unfold dir_key at 1. rewrite node_at_app.
    fold (dir_key (cwd st) r).
    rewrite lookup_delete_ne by by apply src_dir_ne.
    unfold m1. rewrite ensure_dir_lookup, decide_True by done.
    destruct (fs st !! dir_key (cwd st) r) as [[data'|]|] eqn:Hd;
      [by destruct (Hdir data')|done..].
  - right. rewrite lookup_delete_ne by by apply src_dst_ne.
    unfold m1. rewrite ensure_dir_ne by apply not_eq_sym, dst_dir_ne. done.
Qed.

Lemma ready_place (r r' : MetadataRow) (st : state) (out : list string) :
  valid_row r = true → valid_row r' = true → ready r st → ready r' st →
  ready r' (State (place (cwd st) r (fs st)) (cwd st) out).
Proof.
  intros Hv Hv' Hr Hr'. split; simpl.
  - by apply wf_place.
  - rewrite place_lookup_test by done. apply Hr'.
  - intros data. rewrite place_lookup_dir by done.
    case_decide as Heq; [|apply Hr'].
    destruct (fs st !! dir_key (cwd st) r) as [[data'|]|] eqn:Hd; try done.
    by destruct (ready_dir _ _ Hr data').
  - apply place_not_dir; [apply dst_dir_ne|apply Hr'].
  - apply place_not_dir; [by apply src_dir_ne|apply Hr'].
Qed.

(** The loop, for a table of the data model. *)
Lemma for_each_arrange (df : pd.DataFrame) (data : list (list pd.value))
    (rows : list MetadataRow) (st : state) :
  Forall2 (row_of df) data rows →
  Forall (λ r, valid_row r = true) rows →
  Forall (λ r, ready r st) rows →
  for_each (process_row df) data st =
  Ok tt (State (arrange (cwd st) rows (fs st)) (cwd st)
               (stdout st ++ reports (cwd st) rows (fs st))).
Proof.
  intros Htab. revert st.
  induction Htab as [|row r data rows Hrow Htab IH]; intros st Hv Hr; simpl.
  - rewrite app_nil_r. by destruct st.
  - apply Forall_cons in Hv as [Hv Hvs]. apply Forall_cons in Hr as [Hr Hrs].
    unfold bind. rewrite (process_row_place _ _ _ _ Hrow Hv Hr).
    rewrite IH; simpl; [by rewrite <-app_assoc|done|].
    eapply Forall_impl; [apply Forall_and; split; [exact Hvs|exact Hrs]|].
    intros r' [??]. simpl. by apply ready_place.
Qed.

End loop_facts.

(** * The whole organizer on well-formed input *)

Definition csv_file : string := posixpath.join base_dir "test.csv".

(** The organizer can run for the table [rows]: the tree is a tree, nothing
    but a directory sits at [test/] and [test/<label>], no directory sits at
    a destination, and no row names a directory. *)
Record unobstructed (rows : list MetadataRow) (st : state) : Prop := {
  entry_wf : fs_facts.wf (fs st);
  entry_test : ∀ data, fs st !! test_key (cwd st) ≠ Some (File data);
  entry_dir : ∀ r data, r ∈ rows → fs st !! dir_key (cwd st) r ≠ Some (File data);
  entry_dst : ∀ r, r ∈ rows → fs st !! dst_key (cwd st) r ≠ Some Dir;
  entry_src : ∀ r, r ∈ rows → fs st !! src_key (cwd st) r ≠ Some Dir
}.

Module organize_facts.
Import posixpath path_facts fs_facts call_facts row_facts body_facts loop_facts.

Lemma named_csv_file : named csv_file (["GT-Music-Genre"] ++ ["test.csv"]).
Proof. split; [done|]. by repeat constructor. Qed.

Section readable.
Variable parse_csv : string → exn + pd.DataFrame.
Variables (st : state) (text : string) (df : pd.DataFrame).
Variable rows : list MetadataRow.
Hypothesis Hcsv : contents csv_file st = Some (File text).
Hypothesis Hparse : parse_csv text = inr df.
Hypothesis Htable : table df rows.
Hypothesis Hvalid : Forall (λ r, valid_row r = true) rows.
Hypothesis Hfree : unobstructed rows st.

Local Abbreviation c := (cwd st).
Local Abbreviation m0 := (ensure_dir (test_key (cwd st)) (fs st)).

Lemma csv_lookup : fs st !! (c ++ ["GT-Music-Genre"; "test.csv"]) = Some (File text).
Proof.
  pose proof Hcsv as H.
  rewrite (contents_named _ _ _ (entry_wf _ _ Hfree) named_csv_file) in H.
  simpl in H. by rewrite node_at_app in H.
Qed.

Lemma base_lookup : os.node_at (fs st) (c ++ ["GT-Music-Genre"]) = Some Dir.
Proof.
  apply (wf_ancestor _ _ "test.csv" []); [apply Hfree|].
  rewrite node_at_snoc, <-app_assoc. simpl. rewrite csv_lookup. eauto.
Qed.

Lemma makedirs_save_dir : os.makedirs save_dir true st = Ok tt (set_fs m0 st).
Proof.
  pose proof (entry_wf _ _ Hfree) as Hwf. unfold os.makedirs.
  rewrite (makedirs_rec_leaf _ _ "GT-Music-Genre" "test"); [|done..|].
  - rewrite (makedirs_leaf_named _ _ _ _ Hwf named_save_dir base_lookup).
    unfold ensure_dir, test_key. simpl.
    destruct (fs st !! (cwd st ++ ["GT-Music-Genre"; "test"]))
      as [[data|]|] eqn:Hk; [|by destruct st|done].
    by destruct (entry_test _ _ Hfree data).
  - rewrite path_exists_contents.
    rewrite (contents_named "GT-Music-Genre" _ st Hwf named_base_dir).
    by rewrite base_lookup.
Qed.

Lemma wf_entry : wf m0.
Proof.
  apply wf_ensure_dir; [apply Hfree|by destruct c|].
  unfold test_key.
  replace (c ++ ["GT-Music-Genre"; "test"])
    with ((c ++ ["GT-Music-Genre"]) ++ ["test"]) by by rewrite <-app_assoc.
  rewrite removelast_last. apply base_lookup.
Qed.

Lemma read_csv_entry :
  read_csv parse_csv csv_file (set_fs m0 st) = Ok df (set_fs m0 st).
Proof.
  unfold read_csv.
  assert (m0 !! (c ++ ["GT-Music-Genre"; "test.csv"]) = Some (File text)) as Hk.
  { rewrite ensure_dir_ne; [apply csv_lookup|].
    unfold test_key. by intros ?%app_inv_head. }
  rewrite (resolve_named_present _ _ (set_fs m0 st) wf_entry named_csv_file);
    simpl; rewrite node_at_app; [|by rewrite Hk].
  by rewrite Hk, Hparse.
Qed.

Lemma ready_entry (r : MetadataRow) :
  r ∈ rows → valid_row r = true → ready r (set_fs m0 st).
Proof.
  intros Hr Hv. split; simpl.
  - apply wf_entry.
  - rewrite ensure_dir_lookup, decide_True by done.
    destruct (fs st !! test_key c) as [[data|]|] eqn:Hk; try done.
    by destruct (entry_test _ _ Hfree data).
  - intros data. rewrite ensure_dir_ne.
    + by apply Hfree.
    + unfold test_key, dir_key. by intros ?%app_inv_head.
  - rewrite ensure_dir_ne.
    + by apply Hfree.
    + unfold test_key, dst_key. by intros ?%app_inv_head.
  - rewrite ensure_dir_ne.
    + by apply Hfree.
    + apply not_eq_sym. by apply src_test_ne.
Qed.

(** On well-formed input the organizer completes, and [arrange] and
    [reports] tell what it did. *)
Lemma organize_arrange :
  organize parse_csv st =
  Ok tt (State (arrange c rows m0) c
               (stdout st ++ reports c rows m0 ++ [completion])).
Proof.
  unfold organize, bind. rewrite makedirs_save_dir.
  change (posixpath.join base_dir "test.csv") with csv_file.
  rewrite read_csv_entry.
  rewrite (for_each_arrange df _ rows); [|done..|].
  - unfold print. simpl. by rewrite <-app_assoc.
  - apply Forall_forall. intros r Hr. apply ready_entry; [done|].
    by eapply Forall_forall in Hvalid.
Qed.

End readable.

End organize_facts.

(** * The tree after the loop *)

Module arrange_facts.
Import posixpath path_facts fs_facts call_facts row_facts body_facts loop_facts.

(** [components] loses nothing: joining them with [/] gives the string back. *)
Fixpoint unsplit (cs : list string) : string :=
  match cs with
  | [] => ""
  | [c] => c
  | c :: cs' => c +:+ String sep (unsplit cs')
  end.

Lemma unsplit_components (p : string) : unsplit (components p) = p.
Proof.
  induction p as [|x p IH]; [done|]. simpl.
  pose proof (components_not_nil p) as Hne.
  destruct (is_sep x) eqn:Hx.
  - apply bool_decide_eq_true in Hx as ->.
    destruct (components p) as [|c cs]; [done|]. simpl in *. by rewrite IH.
  - destruct (components p) as [|c cs]; [done|].
    destruct cs as [|c' cs]; simpl in *; by rewrite <-IH.
Qed.

Lemma src_key_inj (c : path) (r r' : MetadataRow) :
  src_key c r = src_key c r' → relative_path r = relative_path r'.
Proof.
  unfold src_key. intros H%app_inv_head. injection H as H.
  by rewrite <-(unsplit_components (relative_path r)), H, unsplit_components.
Qed.

Lemma dst_key_dest_file (c : path) (r r' : MetadataRow) :
  valid_row r = true → valid_row r' = true →
  dst_key c r = dst_key c r' → dest_file r = dest_file r'.
Proof.
  intros Hv Hv'. unfold dst_key. intros H%app_inv_head. injection H as Hl Hb.
  by rewrite !dest_file_eq, !genre_dir_eq, Hl, Hb by done.
Qed.

Section keys.
Variable c : path.

(** A location the row does not touch. *)
Lemma place_frame (r : MetadataRow) (m : gmap path node) (k : path) :
  k ≠ dir_key c r → k ≠ src_key c r → k ≠ dst_key c r →
  place c r m !! k = m !! k.
Proof.
  intros Hd Hs Ht. unfold place.
  destruct (ensure_dir (dir_key c r) m !! src_key c r) as [[data|]|];
    rewrite ?lookup_insert_ne, ?lookup_delete_ne by done;
    by apply ensure_dir_ne.
Qed.

Lemma arrange_frame (rows : list MetadataRow) (m : gmap path node) (k : path) :
  (∀ r, r ∈ rows → k ≠ dir_key c r ∧ k ≠ src_key c r ∧ k ≠ dst_key c r) →
  arrange c rows m !! k = m !! k.
Proof.
  revert m. induction rows as [|r rows IH]; intros m Hk; simpl; [done|].
  rewrite IH by (intros r' ?; apply Hk; by right).
  destruct (Hk r) as (? & ? & ?); [by left|]. by apply place_frame.
Qed.

(** The source of a row, seen from any row [r']. *)
Lemma place_src (r r' : MetadataRow) (m : gmap path node) :
  valid_row r = true →
  place c r' m !! src_key c r =
  if decide (src_key c r' = src_key c r)
  then match m !! src_key c r with
       | Some (File _) => None
       | o => o
       end
  else m !! src_key c r.
Proof.
  intros Hv. unfold place.
  assert (ensure_dir (dir_key c r') m !! src_key c r = m !! src_key c r) as Hm1
    by (apply ensure_dir_ne, not_eq_sym; by apply src_dir_ne).
  case_decide as Heq.
  - rewrite Heq, Hm1.
    destruct (m !! src_key c r) as [[data|]|] eqn:Hk; [|done..].
    rewrite lookup_insert_ne by (apply not_eq_sym; by apply src_dst_ne).
    by rewrite lookup_delete_eq.
  - destruct (ensure_dir (dir_key c r') m !! src_key c r') as [[data|]|];
      [|done..].
    rewrite lookup_insert_ne by (apply not_eq_sym; by apply src_dst_ne).
    by rewrite lookup_delete_ne.
Qed.

Lemma arrange_src_none (rows : list MetadataRow) (r : MetadataRow)
    (m : gmap path node) :
  valid_row r = true → m !! src_key c r = None →
  arrange c rows m !! src_key c r = None.
Proof.
  intros Hv. revert m. induction rows as [|r' rows IH]; intros m Hm; simpl; [done|].
  apply IH. rewrite place_src by done. rewrite Hm. by case_decide.
Qed.

Lemma arrange_src_other (rows : list MetadataRow) (r : MetadataRow)
    (m : gmap path node) :
  valid_row r = true →
  relative_path r ∉ relative_path <$> rows →
  arrange c rows m !! src_key c r = m !! src_key c r.
Proof.
  intros Hv. revert m. induction rows as [|r' rows IH]; intros m Hin; simpl; [done|].
  rewrite fmap_cons, not_elem_of_cons in Hin. destruct Hin as [Hne Hin].
  rewrite IH by done. rewrite place_src by done.
  rewrite decide_False; [done|]. intros Heq%src_key_inj. congruence.
Qed.

(** The destination of a row, seen from any row [r']. *)
Lemma place_dst (r r' : MetadataRow) (m : gmap path node) :
  valid_row r' = true →
  place c r' m !! dst_key c r =
  match m !! src_key c r' with
  | Some (File data) =>
      if decide (dst_key c r' = dst_key c r) then Some (File data)
      else m !! dst_key c r
  | _ => m !! dst_key c r
  end.
Proof.
  intros Hv. unfold place.
  assert (ensure_dir (dir_key c r') m !! src_key c r' = m !! src_key c r') as ->
    by (apply ensure_dir_ne, not_eq_sym; by apply src_dir_ne).
  assert (ensure_dir (dir_key c r') m !! dst_key c r = m !! dst_key c r) as Hm1
    by (apply ensure_dir_ne, not_eq_sym, dst_dir_ne).
  destruct (m !! src_key c r') as [[data|]|]; [|done..].
  case_decide as Heq; [by rewrite Heq, lookup_insert_eq|].
  rewrite lookup_insert_ne by done.
  by rewrite lookup_delete_ne by by apply src_dst_ne.
Qed.

Lemma arrange_dst_file (rows : list MetadataRow) (r : MetadataRow)
    (m : gmap path node) (data : string) :
  Forall (λ r, valid_row r = true) rows →
  m !! dst_key c r = Some (File data) →
  ∃ data', arrange c rows m !! dst_key c r = Some (File data').
Proof.
  intros Hvs. revert m data.
  induction Hvs as [|r' rows Hv Hvs IH]; intros m data Hm; simpl; [eauto|].
  pose proof (place_dst r r' m Hv) as Hp.
  destruct (m !! src_key c r') as [[data'|]|]; [|by eapply IH; rewrite Hp..].
  case_decide; eapply IH; by rewrite Hp.
Qed.

Lemma arrange_dst_last (rows : list MetadataRow) (r : MetadataRow)
    (m : gmap path node) :
  Forall (λ r, valid_row r = true) rows →
  (∀ r', r' ∈ rows → dst_key c r' ≠ dst_key c r) →
  arrange c rows m !! dst_key c r = m !! dst_key c r.
Proof.
  intros Hvs. revert m.
  induction Hvs as [|r' rows Hv Hvs IH]; intros m Hne; simpl; [done|].
  rewrite IH by (intros; apply Hne; by right).
  rewrite place_dst by done.
  destruct (m !! src_key c r') as [[data'|]|]; [|done..].
  rewrite decide_False; [done|]. apply Hne. by left.
Qed.

(** A label directory, once there, stays. *)
Lemma arrange_dir (rows : list MetadataRow) (r : MetadataRow)
    (m : gmap path node) :
  Forall (λ r, valid_row r = true) rows →
  m !! dir_key c r = Some Dir → arrange c rows m !! dir_key c r = Some Dir.
Proof.
  intros Hvs. revert m.
  induction Hvs as [|r' rows Hv Hvs IH]; intros m Hm; simpl; [done|].
  apply IH. rewrite place_lookup_dir by done. case_decide as Heq; [|done].
  by rewrite Heq, Hm.
Qed.

Lemma arrange_app (rows rows' : list MetadataRow) (m : gmap path node) :
  arrange c (rows ++ rows') m = arrange c rows' (arrange c rows m).
Proof. revert m. induction rows as [|r rows IH]; intros m; simpl; [done|]. apply IH. Qed.

End keys.

End arrange_facts.

(** * The state after a run on well-formed input *)

Module run_facts.
Import posixpath path_facts fs_facts call_facts row_facts body_facts loop_facts.
Import organize_facts arrange_facts.

(** In a tree, what is seen at the three paths of a row is a lookup. *)
Lemma contents_source (r : MetadataRow) (s : state) :
  wf (fs s) → valid_row r = true →
  contents (source_file r) s = fs s !! src_key (cwd s) r.
Proof.
  intros Hwf Hv. rewrite (contents_named _ _ _ Hwf (named_source r Hv)).
  by rewrite node_at_app.
Qed.

Lemma contents_dest (r : MetadataRow) (s : state) :
  wf (fs s) → valid_row r = true →
  contents (dest_file r) s = fs s !! dst_key (cwd s) r.
Proof.
  intros Hwf Hv. rewrite (contents_named _ _ _ Hwf (named_dest r Hv)).
  simpl. by rewrite node_at_app.
Qed.

Lemma contents_genre_dir (r : MetadataRow) (s : state) :
  wf (fs s) → valid_row r = true →
  contents (genre_dir r) s = fs s !! dir_key (cwd s) r.
Proof.
  intros Hwf Hv. rewrite (contents_named _ _ _ Hwf (named_genre_dir r Hv)).
  simpl. by rewrite node_at_app.
Qed.

Lemma contents_save_dir (s : state) :
  wf (fs s) → contents save_dir s = fs s !! test_key (cwd s).
Proof.
  intros Hwf. rewrite (contents_named save_dir _ s Hwf named_save_dir).
  simpl. by rewrite node_at_app.
Qed.

Lemma arrange_ready (rows : list MetadataRow) (st : state) (r' : MetadataRow)
    (out : list string) :
  Forall (λ r, valid_row r = true) rows → Forall (λ r, ready r st) rows →
  valid_row r' = true → ready r' st →
  ready r' (State (arrange (cwd st) rows (fs st)) (cwd st) out).
Proof.
  intros Hvs. revert st.
  induction Hvs as [|r rows Hv Hvs IH]; intros st Hrs Hv' Hr'; simpl.
  - by destruct Hr'.
  - apply Forall_cons in Hrs as [Hr Hrs].
    apply (IH (State (place (cwd st) r (fs st)) (cwd st) out)); [|done|].
    + eapply Forall_impl; [apply Forall_and; split; [exact Hvs|exact Hrs]|].
      intros r'' [??]. by apply ready_place.
    + by apply ready_place.
Qed.

Lemma arrange_wf (rows : list MetadataRow) (st : state) :
  Forall (λ r, valid_row r = true) rows → Forall (λ r, ready r st) rows →
  wf (fs st) → wf (arrange (cwd st) rows (fs st)).
Proof.
  intros Hvs Hrs Hwf. destruct Hvs as [|r rows Hv Hvs]; [done|].
  apply Forall_cons in Hrs as [Hr Hrs].
  apply (arrange_ready (r :: rows) st r []); auto.
Qed.

(** After the loop every listed source is gone and every label directory
    is there. *)
Lemma arrange_settled (rows : list MetadataRow) (st : state) (r : MetadataRow) :
  Forall (λ r, valid_row r = true) rows → Forall (λ r, ready r st) rows →
  r ∈ rows →
  arrange (cwd st) rows (fs st) !! src_key (cwd st) r = None ∧
  arrange (cwd st) rows (fs st) !! dir_key (cwd st) r = Some Dir.
Proof.
  intros Hvs. revert st.
  induction Hvs as [|r0 rows Hv Hvs IH]; intros st Hrs Hin; simpl.
  - by apply elem_of_nil in Hin.
  - apply Forall_cons in Hrs as [Hr Hrs].
    apply elem_of_cons in Hin as [->|Hin].
    + split.
      * apply arrange_src_none; [done|]. rewrite place_src, decide_True by done.
        pose proof (ready_src _ _ Hr).
        by destruct (fs st !! src_key (cwd st) r0) as [[]|].
      * apply arrange_dir; [done|].
        rewrite place_lookup_dir, decide_True by done.
        pose proof (ready_dir _ _ Hr) as Hd.
        destruct (fs st !! dir_key (cwd st) r0) as [[data|]|]; try done.
        by destruct (Hd data).
    + apply (IH (State (place (cwd st) r0 (fs st)) (cwd st) [])); [|done].
      eapply Forall_impl; [apply Forall_and; split; [exact Hvs|exact Hrs]|].
      intros r'' [??]. by apply ready_place.
Qed.

(** The first row that lists an existing file moves it. *)
Lemma arrange_moved (c : path) (pre post : list MetadataRow) (r : MetadataRow)
    (m : gmap path node) (data : string) :
  Forall (λ r, valid_row r = true) (pre ++ r :: post) →
  relative_path r ∉ relative_path <$> pre →
  m !! src_key c r = Some (File data) →
  arrange c (pre ++ r :: post) m !! src_key c r = None ∧
  (∃ data', arrange c (pre ++ r :: post) m !! dst_key c r = Some (File data')) ∧
  ((∀ r', r' ∈ post → dst_key c r' ≠ dst_key c r) →
   arrange c (pre ++ r :: post) m !! dst_key c r = Some (File data)).
Proof.
  intros Hvs Hfirst Hm.
  apply Forall_app in Hvs as [Hpre [Hv Hpost]%Forall_cons].
  rewrite arrange_app. simpl.
  set (m1 := arrange c pre m).
  assert (m1 !! src_key c r = Some (File data)) as Hm1
    by (unfold m1; by rewrite arrange_src_other).
  assert (place c r m1 !! src_key c r = None) as Hs
    by by rewrite place_src, decide_True, Hm1.
  assert (place c r m1 !! dst_key c r = Some (File data)) as Hd
    by by rewrite place_dst, Hm1, decide_True.
  split_and!.
  - by apply arrange_src_none.
  - by eapply arrange_dst_file.
  - intros Hlast. by rewrite arrange_dst_last.
Qed.

(** Once every source is gone and every directory is there, the loop
    changes nothing and warns about every row. *)
Lemma arrange_idle (c : path) (rows : list MetadataRow) (m : gmap path node) :
  (∀ r, r ∈ rows → m !! src_key c r = None ∧ m !! dir_key c r = Some Dir) →
  arrange c rows m = m ∧
  reports c rows m = (λ r, warning (source_file r)) <$> rows.
Proof.
  induction rows as [|r rows IH]; intros Hm; simpl; [done|].
  destruct (Hm r) as [Hs Hd]; [by left|].
  assert (place c r m = m) as ->.
  { unfold place, ensure_dir. by rewrite Hd, Hs. }
  destruct IH as [-> ->]; [intros; apply Hm; by right|].
  unfold report. by rewrite Hs.
Qed.

End run_facts.

(** * A reader for plain tables

    The theorems below hold for every parser.  To run the script on a
    concrete snapshot the examples need one: this reader takes a header line
    and one line per record, fields separated by commas, and keeps every
    non-empty field as a string.  It is not [pd.read_csv]: it infers no
    numbers and no missing-value markers, and knows no quoting, no carriage
    returns and no index column.  The tables of the examples hold none of
    these (two columns of names and relative paths), so pandas reads them into
    the same frames. *)

Module plain_csv.
Import posixpath.

Definition newline : ascii := "010"%char.
Definition comma : ascii := ","%char.

(** [s.split(d)] *)
Fixpoint split_on (d : ascii) (s : string) : list string :=
  match s with
  | EmptyString => [EmptyString]
  | String x r =>
      if bool_decide (x = d) then EmptyString :: split_on d r
      else match split_on d r with
           | h :: t => String x h :: t
           | [] => [String x EmptyString]
           end
  end.

(** An empty field is read as NaN. *)
Definition field (f : string) : pd.value :=
  if is_empty f then pd.VOther else pd.VStr f.

(** Blank lines are skipped; the first line names the columns. *)
Definition read (text : string) : exn + pd.DataFrame :=
  match filter (λ l, l ≠ EmptyString) (split_on newline text) with
  | [] => inl (LibraryError "EmptyDataError")
  | header :: records =>
      let cols := split_on comma header in
      let rows := map (λ l, field <$> split_on comma l) records in
      if forallb (λ row : list pd.value, Nat.leb (length row) (length cols)) rows
      then inr {| pd.columns := cols; pd.data := rows |}
      else inl (LibraryError "ParserError")
  end.

(** Writing a table out, one line per record. *)
Fixpoint line (cells : list string) : string :=
  match cells with
  | [] => EmptyString
  | [c] => c
  | c :: cells' => c +:+ String comma (line cells')
  end.

Fixpoint render (records : list (list string)) : string :=
  match records with
  | [] => EmptyString
  | cells :: records' => line cells +:+ String newline (render records')
  end.

End plain_csv.

(** * A small snapshot to run the script on *)

Module demo.

Definition nl : string := String plain_csv.newline EmptyString.

(** The hub client when the snapshot is already on disk. *)
Definition already_fetched : string → string → string → M unit :=
  λ _ _ _, ret tt.

Definition home : path := ["home"; "user"].

(** A snapshot holding [files] and the metadata table [text]. *)
Definition snapshot (files : list (path * node)) (text : string) : state :=
  State (list_to_map
           ((["home"], Dir) :: (home, Dir) ::
            (home ++ ["GT-Music-Genre"], Dir) ::
            (home ++ ["GT-Music-Genre"; "test.csv"], File text) ::
            ((λ kv, (home ++ "GT-Music-Genre" :: kv.1, kv.2)) <$> files)))
        home [].

Definition two_files : list (path * node) :=
  [(["a"], Dir); (["a"; "x.wav"], File "X");
   (["b"], Dir); (["b"; "y.wav"], File "Y")].

Definition rock_x : MetadataRow := {| relative_path := "a/x.wav"; class_label := "rock" |}.
Definition jazz_y : MetadataRow := {| relative_path := "b/y.wav"; class_label := "jazz" |}.
Definition jazz_x : MetadataRow := {| relative_path := "a/x.wav"; class_label := "jazz" |}.
Definition rock_bx : MetadataRow := {| relative_path := "b/x.wav"; class_label := "rock" |}.
Definition pop_z : MetadataRow := {| relative_path := "c/z.wav"; class_label := "pop" |}.
Definition rock_cx : MetadataRow := {| relative_path := "c/x.wav"; class_label := "rock" |}.
Definition ghost : MetadataRow := {| relative_path := "ghost.wav"; class_label := "rock" |}.

(** Rows that name a directory, a file inside it, a place below [test/],
    and the metadata file itself. *)
Definition dir_a : MetadataRow := {| relative_path := "a"; class_label := "rock" |}.
Definition rock_ba : MetadataRow := {| relative_path := "b/a"; class_label := "rock" |}.
Definition moved_x : MetadataRow :=
  {| relative_path := "test/rock/x.wav"; class_label := "jazz" |}.
Definition table_itself : MetadataRow :=
  {| relative_path := "test.csv"; class_label := "rock" |}.

Definition three_files : list (path * node) :=
  two_files ++ [(["b"; "x.wav"], File "B"); (["c"], Dir); (["c"; "x.wav"], File "C")].

Definition nested_files : list (path * node) :=
  [(["a"], Dir); (["a"; "a"], File "A"); (["b"], Dir); (["b"; "a"], File "B")].

(** The table of [rows] as the text of [test.csv]. *)
Definition csv_of (rows : list MetadataRow) : string :=
  plain_csv.render
    (["path"; "classname"] :: ((λ r, [relative_path r; class_label r]) <$> rows)).

End demo.

(** * Well-formed input *)

(** The metadata file is readable and parses to the table [rows]; the rows
    are rows of the data model; nothing obstructs the output tree. *)
Record well_formed_input (parse_csv : string → exn + pd.DataFrame)
    (st : state) (rows : list MetadataRow) : Prop := {
  input_table : ∃ text df,
    fs_facts.contents csv_file st = Some (File text) ∧
    parse_csv text = inr df ∧ table df rows;
  input_rows : Forall (λ r, valid_row r = true) rows;
  input_tree : unobstructed rows st
}.

(** The state a run leaves behind. *)
Definition organized (rows : list MetadataRow) (st : state) : state :=
  let m0 := ensure_dir (test_key (cwd st)) (fs st) in
  State (arrange (cwd st) rows m0) (cwd st)
        (stdout st ++ reports (cwd st) rows m0 ++ [completion]).

Module input_facts.
Import posixpath path_facts fs_facts call_facts row_facts body_facts loop_facts.
Import organize_facts arrange_facts run_facts.

Section input.
Variable parse_csv : string → exn + pd.DataFrame.
Variables (st : state) (rows : list MetadataRow).
Hypothesis Hin : well_formed_input parse_csv st rows.

Lemma organize_organized : organize parse_csv st = Ok tt (organized rows st).
Proof.
  destruct Hin as [(text & df & Hcsv & Hparse & Htable) Hvalid Hfree].
  by apply (organize_arrange parse_csv st text df rows).
Qed.

Lemma entry_ready : Forall (λ r, ready r (set_fs (ensure_dir (test_key (cwd st)) (fs st)) st)) rows.
Proof.
  destruct Hin as [(text & df & Hcsv & Hparse & Htable) Hvalid Hfree].
  apply Forall_forall. intros r Hr.
  apply (ready_entry st text rows Hcsv Hfree r Hr).
  by eapply Forall_forall in Hvalid.
Qed.

Lemma entry_lookup (k : path) :
  k ≠ test_key (cwd st) → ensure_dir (test_key (cwd st)) (fs st) !! k = fs st !! k.
Proof. intros. by apply ensure_dir_ne. Qed.

Lemma organized_wf : wf (fs (organized rows st)).
Proof.
  destruct Hin as [(text & df & Hcsv & Hparse & Htable) Hvalid Hfree].
  apply (arrange_wf rows (set_fs (ensure_dir (test_key (cwd st)) (fs st)) st));
    [done|apply entry_ready|].
  by apply (wf_entry st text rows).
Qed.

Lemma organized_ready (r : MetadataRow) : r ∈ rows → ready r (organized rows st).
Proof.
  intros Hr. pose proof (input_rows _ _ _ Hin) as Hvalid.
  pose proof entry_ready as Hrs.
  apply (arrange_ready rows (set_fs (ensure_dir (test_key (cwd st)) (fs st)) st));
    [done..| |].
  - by eapply Forall_forall in Hvalid.
  - by eapply Forall_forall in Hrs.
Qed.

Lemma organized_settled (r : MetadataRow) :
  r ∈ rows →
  fs (organized rows st) !! src_key (cwd st) r = None ∧
  fs (organized rows st) !! dir_key (cwd st) r = Some Dir.
Proof.
  intros Hr.
  apply (arrange_settled rows (set_fs (ensure_dir (test_key (cwd st)) (fs st)) st));
    [apply Hin|apply entry_ready|done].
Qed.

Lemma organized_test : fs (organized rows st) !! test_key (cwd st) = Some Dir.
Proof.
  pose proof (input_rows _ _ _ Hin) as Hvalid.
  destruct Hin as [(text & df & Hcsv & Hparse & Htable) _ Hfree].
  simpl. rewrite arrange_frame.
  - rewrite ensure_dir_lookup, decide_True by done.
    destruct (fs st !! test_key (cwd st)) as [[data|]|] eqn:Hk; try done.
    by destruct (entry_test _ _ Hfree data).
  - intros r Hr. eapply Forall_forall in Hvalid; [|done]. split_and!.
    + unfold test_key, dir_key. by intros ?%app_inv_head.
    + apply not_eq_sym. by apply src_test_ne.
    + unfold test_key, dst_key. by intros ?%app_inv_head.
Qed.

End input.

End input_facts.

(** * The behaviour of the organizer *)

Import posixpath path_facts fs_facts call_facts row_facts body_facts loop_facts.
Import organize_facts arrange_facts run_facts input_facts.

(** Evaluation on a concrete snapshot. *)
Ltac by_eval := vm_compute; first [reflexivity | discriminate | exact I | done].

Ltac each_row H :=
  repeat (apply elem_of_cons in H as [->|H]); [..|by apply elem_of_nil in H].

Ltac not_listed :=
  simpl; repeat (apply not_elem_of_cons; split; [by_eval|]); apply not_elem_of_nil.

Ltac concrete_input :=
  split;
  [ eexists _, _; split_and!;
    [ by_eval | by_eval
    | unfold table; simpl;
      repeat first [apply List.Forall2_nil | apply List.Forall2_cons; [split; by_eval|]] ]
  | repeat first [apply List.Forall_nil | apply List.Forall_cons; [by_eval|]]
  | split;
    [ refine (bool_decide_unpack _ _); by_eval
    | intros data; by_eval
    | intros r data Hr; each_row Hr; by_eval
    | intros r Hr; each_row Hr; by_eval
    | intros r Hr; each_row Hr; by_eval ] ].

(** The error a run ended with, if any. *)
Definition raised {A} (o : outcome A) : option exn :=
  match o with
  | Ok _ _ => None
  | Raise e _ => Some e
  end.

Lemma ok_final (o : outcome unit) :
  raised o = None → o = Ok tt (makedirs_facts.final o).
Proof. by destruct o as [[] ?|]. Qed.

Lemma raise_final {A} (o : outcome A) (e : exn) :
  raised o = Some e → o = Raise e (makedirs_facts.final o).
Proof. destruct o; [done|]. by intros [= ->]. Qed.

Lemma reports_app (c : path) (rows rows' : list MetadataRow) (m : gmap path node) :
  reports c (rows ++ rows') m =
  reports c rows m ++ reports c rows' (arrange c rows m).
Proof.
  revert m. induction rows as [|r rows IH]; intros m; simpl; [done|].
  by rewrite IH, app_assoc.
Qed.

(** A source that the snapshot lacks, or that an earlier row lists, is not
    there when the turn of its row comes. *)
Lemma gone_at_turn (parse_csv : string → exn + pd.DataFrame)
    (st : state) (pre post : list MetadataRow) (r : MetadataRow) :
  well_formed_input parse_csv st (pre ++ r :: post) →
  contents (source_file r) st = None ∨ relative_path r ∈ relative_path <$> pre →
  arrange (cwd st) pre (ensure_dir (test_key (cwd st)) (fs st)) !! src_key (cwd st) r
  = None.
Proof.
  intros Hin Hmissing.
  pose proof (input_rows _ _ _ Hin) as Hvalid.
  pose proof (entry_ready _ _ _ Hin) as Hready.
  apply Forall_app in Hvalid as [Hvpre [Hv _]%Forall_cons].
  apply Forall_app in Hready as [Hrpre _].
  destruct Hmissing as [Hnone|Hlisted].
  - rewrite contents_source in Hnone
      by (done || apply (entry_wf _ _ (input_tree _ _ _ Hin))).
    apply arrange_src_none; [done|].
    rewrite ensure_dir_ne; [done|]. apply not_eq_sym. by apply src_test_ne.
  - apply list_elem_of_fmap in Hlisted as (r' & Heq & Hr').
    assert (src_key (cwd st) r = src_key (cwd st) r') as ->
      by (unfold src_key; by rewrite Heq).
    by apply (arrange_settled pre
                (set_fs (ensure_dir (test_key (cwd st)) (fs st)) st) r').
Qed.

(** A run that is not told to move the metadata file leaves it in place. *)
Lemma table_is_kept (parse_csv : string → exn + pd.DataFrame)
    (st : state) (rows : list MetadataRow) :
  well_formed_input parse_csv st rows →
  (∀ r, r ∈ rows → relative_path r ≠ "test.csv") →
  contents csv_file (organized rows st) = contents csv_file st.
Proof.
  intros Hin Hother.
  pose proof (input_rows _ _ _ Hin) as Hvalid.
  rewrite (contents_named csv_file _ _ (organized_wf _ _ _ Hin) named_csv_file).
  rewrite (contents_named csv_file _ _ (entry_wf _ _ (input_tree _ _ _ Hin))
             named_csv_file).
  simpl. rewrite !node_at_app. rewrite arrange_frame.
  - apply ensure_dir_ne. unfold test_key. by intros ?%app_inv_head.
  - intros r Hr. split_and!.
    + unfold dir_key. by intros ?%app_inv_head.
    + unfold src_key. intros H%app_inv_head. injection H as H.
      apply (Hother r Hr).
      by rewrite <-(unsplit_components (relative_path r)), <-H.
    + unfold dst_key. by intros ?%app_inv_head.
Qed.

(** C1 (as amended).  On well-formed input the run completes.  A row whose
    source file exists before the run, and whose relative path no earlier row
    lists, has afterwards nothing at its source path and a regular file at
    [GT-Music-Genre/test/<class_label>/<basename>]; that file is the row's own
    unless a later row maps to the same destination. *)
Theorem listed_file_is_moved (parse_csv : string → exn + pd.DataFrame)
    (st : state) (rows pre post : list MetadataRow) (r : MetadataRow) (data : string) :
  well_formed_input parse_csv st rows →
  rows = pre ++ r :: post →
  relative_path r ∉ relative_path <$> pre →
  contents (source_file r) st = Some (File data) →
  ∃ st', organize parse_csv st = Ok tt st' ∧
    contents (source_file r) st' = None ∧
    (∃ data', contents (dest_file r) st' = Some (File data')) ∧
    ((∀ r', r' ∈ post → dest_file r' ≠ dest_file r) →
     contents (dest_file r) st' = Some (File data)) ∧
    dest_file r =
      "GT-Music-Genre/test" +:+ "/" +:+ class_label r +:+ "/" +:+
      basename (relative_path r).
Proof.
  intros Hin Hrows Hfirst Hsrc. exists (organized rows st).
  split; [by apply organize_organized|].
  pose proof (input_rows _ _ _ Hin) as Hvalid.
  pose proof (organized_wf _ _ _ Hin) as Hwf'.
  pose proof (entry_wf _ _ (input_tree _ _ _ Hin)) as Hwf.
  assert (valid_row r = true) as Hv.
  { eapply Forall_forall in Hvalid; [done|]. rewrite Hrows. set_solver. }
  rewrite contents_source in Hsrc by done.
  rewrite contents_source, contents_dest by done. simpl.
  rewrite Hrows in Hvalid |- *.
  destruct (arrange_moved (cwd st) pre post r
              (ensure_dir (test_key (cwd st)) (fs st)) data Hvalid Hfirst)
    as (Hs & Hd & Hlast).
  { rewrite ensure_dir_ne; [done|]. apply not_eq_sym. by apply src_test_ne. }
  split_and!; [done|done| |].
  - intros Hpost. apply Hlast. intros r' Hr' Heq. apply (Hpost r' Hr').
    apply (dst_key_dest_file (cwd st)); [|done..].
    eapply Forall_forall in Hvalid; [done|]. set_solver.
  - by rewrite dest_file_eq, genre_dir_eq, sapp_assoc by done.
Qed.

(** The table of the specification: both files exist, both are moved. *)
Lemma listed_file_is_moved_witness :
  ∃ st', organize plain_csv.read
           (demo.snapshot demo.two_files (demo.csv_of [demo.rock_x; demo.jazz_y]))
         = Ok tt st' ∧
    contents "GT-Music-Genre/a/x.wav" st' = None ∧
    (∃ data', contents "GT-Music-Genre/test/rock/x.wav" st' = Some (File data')) ∧
    ((∀ r', r' ∈ [demo.jazz_y] → dest_file r' ≠ dest_file demo.rock_x) →
     contents "GT-Music-Genre/test/rock/x.wav" st' = Some (File "X")) ∧
    dest_file demo.rock_x = "GT-Music-Genre/test/rock/x.wav".
Proof.
  apply (listed_file_is_moved plain_csv.read
           (demo.snapshot demo.two_files (demo.csv_of [demo.rock_x; demo.jazz_y]))
           [demo.rock_x; demo.jazz_y] [] [demo.jazz_y] demo.rock_x "X").
  - concrete_input.
  - reflexivity.
  - apply not_elem_of_nil.
  - by_eval.
Defined.

(** C1, the claim as stated fails: a file listed twice, under two labels,
    exists before the run, and after the run it is not at the destination of
    the second row (it went to the destination of the first). *)
Lemma duplicate_row_is_not_moved_twice :
  let st := demo.snapshot demo.two_files (demo.csv_of [demo.rock_x; demo.jazz_x]) in
  contents (source_file demo.jazz_x) st = Some (File "X") ∧
  dest_file demo.jazz_x = "GT-Music-Genre/test/jazz/x.wav" ∧
  ∃ st', organize plain_csv.read st = Ok tt st' ∧
    contents "GT-Music-Genre/test/jazz/x.wav" st' = None ∧
    contents "GT-Music-Genre/test/rock/x.wav" st' = Some (File "X").
Proof.
  intros st. split_and!; [by_eval|by_eval|].
  exists (makedirs_facts.final (organize plain_csv.read st)).
  split_and!; [apply ok_final; by_eval|by_eval..].
Qed.

(** The example of the specification, evaluated: both files end up below
    their label and leave their original place. *)
Example two_row_table :
  ∃ st', organize plain_csv.read
           (demo.snapshot demo.two_files (demo.csv_of [demo.rock_x; demo.jazz_y]))
         = Ok tt st' ∧
    contents "GT-Music-Genre/test/rock/x.wav" st' = Some (File "X") ∧
    contents "GT-Music-Genre/test/jazz/y.wav" st' = Some (File "Y") ∧
    contents "GT-Music-Genre/a/x.wav" st' = None ∧
    contents "GT-Music-Genre/b/y.wav" st' = None.
Proof.
  exists (makedirs_facts.final
            (organize plain_csv.read
               (demo.snapshot demo.two_files
                  (demo.csv_of [demo.rock_x; demo.jazz_y])))).
  split_and!; [apply ok_final; by_eval|by_eval..].
Qed.

(** C4 (as amended).  On well-formed input, two rows with the same label and
    the same basename map to the same destination.  When both files are
    present, the path of the second is listed by no earlier row and no later
    row maps to that destination, the run completes and afterwards the
    destination holds the file of the second row; neither source is left. *)
Theorem later_row_overwrites (parse_csv : string → exn + pd.DataFrame)
    (st : state) (rows pre mid post : list MetadataRow) (r1 r2 : MetadataRow)
    (data1 data2 : string) :
  well_formed_input parse_csv st rows →
  rows = pre ++ r1 :: mid ++ r2 :: post →
  class_label r1 = class_label r2 →
  basename (relative_path r1) = basename (relative_path r2) →
  relative_path r2 ∉ relative_path <$> (pre ++ r1 :: mid) →
  contents (source_file r1) st = Some (File data1) →
  contents (source_file r2) st = Some (File data2) →
  (∀ r', r' ∈ post → dest_file r' ≠ dest_file r2) →
  ∃ st', organize parse_csv st = Ok tt st' ∧
    dest_file r1 = dest_file r2 ∧
    contents (dest_file r2) st' = Some (File data2) ∧
    contents (source_file r1) st' = None ∧
    contents (source_file r2) st' = None.
Proof.
  intros Hin Hrows Hlabel Hbase Hfirst _ Hsrc2 Hpost. exists (organized rows st).
  split; [by apply organize_organized|].
  pose proof (input_rows _ _ _ Hin) as Hvalid.
  pose proof (organized_wf _ _ _ Hin) as Hwf'.
  pose proof (entry_wf _ _ (input_tree _ _ _ Hin)) as Hwf.
  assert (r1 ∈ rows ∧ r2 ∈ rows) as [Hr1 Hr2] by (rewrite Hrows; set_solver).
  assert (valid_row r1 = true ∧ valid_row r2 = true) as [Hv1 Hv2]
    by (split; by eapply Forall_forall in Hvalid).
  split.
  { by rewrite !dest_file_eq, !genre_dir_eq, Hlabel, Hbase by done. }
  rewrite contents_source in Hsrc2 by done.
  rewrite !contents_source, contents_dest by done.
  destruct (organized_settled _ _ _ Hin r1 Hr1) as [Hs1 _].
  destruct (organized_settled _ _ _ Hin r2 Hr2) as [Hs2 _].
  split_and!; [|done..]. simpl.
  replace rows with ((pre ++ r1 :: mid) ++ r2 :: post) in *
    by (rewrite Hrows, <-app_assoc; done).
  destruct (arrange_moved (cwd st) (pre ++ r1 :: mid) post r2
              (ensure_dir (test_key (cwd st)) (fs st)) data2 Hvalid Hfirst)
    as (_ & _ & Hlast).
  { rewrite ensure_dir_ne; [done|]. apply not_eq_sym. by apply src_test_ne. }
  apply Hlast. intros r' Hr' Heq. apply (Hpost r' Hr').
  apply (dst_key_dest_file (cwd st)); [|done..].
  eapply Forall_forall in Hvalid; [done|]. set_solver.
Qed.

Lemma later_row_overwrites_witness :
  ∃ st', organize plain_csv.read
           (demo.snapshot (demo.two_files ++ [(["b"; "x.wav"], File "B")])
              (demo.csv_of [demo.rock_x; demo.rock_bx]))
         = Ok tt st' ∧
    dest_file demo.rock_x = dest_file demo.rock_bx ∧
    contents (dest_file demo.rock_bx) st' = Some (File "B") ∧
    contents (source_file demo.rock_x) st' = None ∧
    contents (source_file demo.rock_bx) st' = None.
Proof.
  apply (later_row_overwrites plain_csv.read
           (demo.snapshot (demo.two_files ++ [(["b"; "x.wav"], File "B")])
              (demo.csv_of [demo.rock_x; demo.rock_bx]))
           [demo.rock_x; demo.rock_bx] [] [] [] demo.rock_x demo.rock_bx "X" "B").
  - concrete_input.
  - reflexivity.
  - reflexivity.
  - reflexivity.
  - not_listed.
  - by_eval.
  - by_eval.
  - intros r' Hr'. by apply elem_of_nil in Hr'.
Defined.

(** C4, the claim as stated fails: three rows map to the same destination
    and all three files are present.  For the first two rows the claim
    promises the file of the second; after the run the destination holds
    the file of the third, since the last row that moves a file there
    wins. *)
Lemma last_colliding_row_wins :
  let rows := [demo.rock_x; demo.rock_bx; demo.rock_cx] in
  let st := demo.snapshot demo.three_files (demo.csv_of rows) in
  forallb valid_row rows = true ∧
  dest_file demo.rock_x = dest_file demo.rock_bx ∧
  contents (source_file demo.rock_x) st = Some (File "X") ∧
  contents (source_file demo.rock_bx) st = Some (File "B") ∧
  ∃ st', organize plain_csv.read st = Ok tt st' ∧
    contents (dest_file demo.rock_bx) st' = Some (File "C").
Proof.
  intros rows st. split_and!; [by_eval..|].
  exists (makedirs_facts.final (organize plain_csv.read st)).
  split_and!; [apply ok_final; by_eval|by_eval..].
Qed.

(** C7 (as amended).  On well-formed input whose table does not list the
    metadata file [test.csv] itself, the run completes and so does a second
    run: it warns about every row of the table, in table order (so about
    every row the first run moved), prints the completion line, moves and
    deletes nothing, and leaves the tree as it was. *)
Theorem second_run_only_warns (parse_csv : string → exn + pd.DataFrame)
    (st : state) (rows : list MetadataRow) :
  well_formed_input parse_csv st rows →
  (∀ r, r ∈ rows → relative_path r ≠ "test.csv") →
  ∃ st1, organize parse_csv st = Ok tt st1 ∧
    organize parse_csv st1 =
    Ok tt (State (fs st1) (cwd st1)
             (stdout st1 ++ ((λ r, warning (source_file r)) <$> rows) ++ [completion])).
Proof.
  intros Hin Hother. exists (organized rows st).
  split; [by apply organize_organized|].
  pose proof (table_is_kept _ _ _ Hin Hother) as Hcsv.
  pose proof (input_rows _ _ _ Hin) as Hvalid.
  destruct (input_table _ _ _ Hin) as (text & df & Htext & Hparse & Htable).
  assert (well_formed_input parse_csv (organized rows st) rows) as Hin1.
  { split; [|done|].
    - exists text, df. by rewrite Hcsv.
    - split.
      + apply (organized_wf _ _ _ Hin).
      + intros data. change (cwd (organized rows st)) with (cwd st).
        by rewrite (organized_test _ _ _ Hin).
      + intros r data Hr. apply (organized_ready _ _ _ Hin r Hr).
      + intros r Hr. apply (organized_ready _ _ _ Hin r Hr).
      + intros r Hr. apply (organized_ready _ _ _ Hin r Hr). }
  rewrite (organize_organized _ _ _ Hin1). unfold organized at 1. f_equal.
  change (cwd (organized rows st)) with (cwd st).
  assert (ensure_dir (test_key (cwd st)) (fs (organized rows st))
          = fs (organized rows st)) as ->.
  { unfold ensure_dir. by rewrite (organized_test _ _ _ Hin). }
  destruct (arrange_idle (cwd st) rows (fs (organized rows st))) as [-> ->];
    [|done].
  intros r Hr. apply (organized_settled _ _ _ Hin r Hr).
Qed.

Lemma second_run_only_warns_witness :
  ∃ st1,
    organize plain_csv.read
      (demo.snapshot demo.two_files (demo.csv_of [demo.rock_x; demo.pop_z]))
    = Ok tt st1 ∧
    organize plain_csv.read st1 =
    Ok tt (State (fs st1) (cwd st1)
             (stdout st1 ++
              ["Warning: File not found - GT-Music-Genre/a/x.wav";
               "Warning: File not found - GT-Music-Genre/c/z.wav"] ++
              [completion])).
Proof.
  apply (second_run_only_warns plain_csv.read
           (demo.snapshot demo.two_files (demo.csv_of [demo.rock_x; demo.pop_z]))
           [demo.rock_x; demo.pop_z]).
  - concrete_input.
  - intros r Hr. each_row Hr; by_eval.
Defined.

(** C7, the claim as stated fails: the table lists the metadata file
    [test.csv] itself, a row of the data model like any other.  The first run
    completes and moves the metadata file below [test/rock]; the second run
    cannot read the table, ends with [FileNotFoundError] before the first
    row and prints no warning. *)
Lemma listed_table_stops_the_second_run :
  let rows := [demo.table_itself] in
  let st := demo.snapshot demo.two_files (demo.csv_of rows) in
  forallb valid_row rows = true ∧
  ∃ st1 st2,
    organize plain_csv.read st = Ok tt st1 ∧
    contents "GT-Music-Genre/test/rock/test.csv" st1 = contents csv_file st ∧
    organize plain_csv.read st1 = Raise FileNotFoundError st2 ∧
    stdout st2 = stdout st1.
Proof.
  intros rows st. split; [by_eval|].
  exists (makedirs_facts.final (organize plain_csv.read st)).
  exists (makedirs_facts.final
            (organize plain_csv.read
               (makedirs_facts.final (organize plain_csv.read st)))).
  split_and!; [apply ok_final; by_eval|by_eval|apply raise_final; by_eval|by_eval].
Qed.

(** A table with a row below [test/], which the data model excludes: the
    first row names the place where the first run puts the file of the
    second row.  Both runs complete; the second run finds that file and moves
    it on, from [test/rock] to [test/jazz], so the layout changes. *)
Example second_run_moves_a_file :
  let rows := [demo.moved_x; demo.rock_x] in
  let st := demo.snapshot demo.two_files (demo.csv_of rows) in
  ∃ st1 st2,
    organize plain_csv.read st = Ok tt st1 ∧
    organize plain_csv.read st1 = Ok tt st2 ∧
    contents "GT-Music-Genre/test/rock/x.wav" st1 = Some (File "X") ∧
    contents "GT-Music-Genre/test/jazz/x.wav" st1 = None ∧
    contents "GT-Music-Genre/test/rock/x.wav" st2 = None ∧
    contents "GT-Music-Genre/test/jazz/x.wav" st2 = Some (File "X").
Proof.
  intros rows st.
  exists (makedirs_facts.final (organize plain_csv.read st)).
  exists (makedirs_facts.final
            (organize plain_csv.read
               (makedirs_facts.final (organize plain_csv.read st)))).
  split_and!; [apply ok_final; by_eval|apply ok_final; by_eval|by_eval..].
Qed.



(** C9 (as amended).  A run on well-formed input, where in particular no row
    names a directory, leaves every location as it was, except the output
    root [test/], the sources the table lists, the destinations and their
    label directories; the working directory stays the same. *)
Theorem untouched_paths_are_kept (parse_csv : string → exn + pd.DataFrame)
    (st : state) (rows : list MetadataRow) :
  well_formed_input parse_csv st rows →
  ∃ st', organize parse_csv st = Ok tt st' ∧
    cwd st' = cwd st ∧
    ∀ k, k ≠ test_key (cwd st) →
      (∀ r, r ∈ rows →
         k ≠ dir_key (cwd st) r ∧ k ≠ src_key (cwd st) r ∧ k ≠ dst_key (cwd st) r) →
      fs st' !! k = fs st !! k.
Proof.
  intros Hin. exists (organized rows st).
  split; [by apply organize_organized|]. split; [done|].
  intros k Htest Hk. simpl. rewrite arrange_frame by done.
  by apply ensure_dir_ne.
Qed.

Lemma untouched_paths_are_kept_witness :
  ∃ st', organize plain_csv.read
           (demo.snapshot demo.two_files (demo.csv_of [demo.rock_x]))
         = Ok tt st' ∧
    fs st' !! (demo.home ++ ["GT-Music-Genre"; "b"; "y.wav"]) = Some (File "Y").
Proof.
  destruct (untouched_paths_are_kept plain_csv.read
              (demo.snapshot demo.two_files (demo.csv_of [demo.rock_x]))
              [demo.rock_x]) as (st' & Hrun & _ & Hkeep).
  - concrete_input.
  - exists st'. split; [done|].
    rewrite (Hkeep (demo.home ++ ["GT-Music-Genre"; "b"; "y.wav"])).
    + by_eval.
    + by_eval.
    + intros r Hr. each_row Hr. split_and!; by_eval.
Defined.

(** C9, the claim as stated fails: a row that names a directory moves the
    directory with all it holds.  The file [a/x.wav] is no source, no
    destination and no label directory of the table, and after the run it is
    no longer at its place. *)
Lemma listed_directory_takes_its_files :
  let rows := [demo.dir_a] in
  let st := demo.snapshot demo.two_files (demo.csv_of rows) in
  forallb valid_row rows = true ∧
  source_file demo.dir_a = "GT-Music-Genre/a" ∧
  genre_dir demo.dir_a = "GT-Music-Genre/test/rock" ∧
  dest_file demo.dir_a = "GT-Music-Genre/test/rock/a" ∧
  contents "GT-Music-Genre/a/x.wav" st = Some (File "X") ∧
  ∃ st', organize plain_csv.read st = Ok tt st' ∧
    contents "GT-Music-Genre/a/x.wav" st' = None ∧
    contents "GT-Music-Genre/test/rock/a/x.wav" st' = Some (File "X").
Proof.
  intros rows st. split_and!; [by_eval..|].
  exists (makedirs_facts.final (organize plain_csv.read st)).
  split_and!; [apply ok_final; by_eval|by_eval..].
Qed.



(** The script's calls that create directories, in their order. *)
Definition make_dirs (rows : list MetadataRow) : M unit :=
  os.makedirs save_dir true ;;
  for_each (λ r, os.makedirs (genre_dir r) true) rows.


(** C2 (as amended).  In any state, the loop body that finds the source file
    of its row missing at move time prints one line, the warning that names
    exactly the source path, and raises nothing.  On well-formed input the
    run completes: a row whose file the snapshot lacks, or whose path an
    earlier row lists, finds its source missing, and its warning comes after
    the lines of the rows before it and before the lines of the rows after
    it; the row does nothing but make sure that its label directory is
    there; the remaining rows are processed, and the completion line comes
    last. *)
Theorem missing_source_only_warns (parse_csv : string → exn + pd.DataFrame)
    (st : state) (rows pre post : list MetadataRow) (r : MetadataRow) :
  well_formed_input parse_csv st rows →
  rows = pre ++ r :: post →
  contents (source_file r) st = None ∨ relative_path r ∈ relative_path <$> pre →
  let m0 := ensure_dir (test_key (cwd st)) (fs st) in
  let m1 := arrange (cwd st) pre m0 in
  let m2 := ensure_dir (dir_key (cwd st) r) m1 in
  (∀ df row r' s s1,
     row_of df row r' →
     os.makedirs (genre_dir r') true s = Ok tt s1 →
     os.path_exists (source_file r') s1 = false →
     process_row df row s =
     Ok tt (State (fs s1) (cwd s1)
              (stdout s1 ++
               ["Warning: File not found - " +:+ join base_dir (relative_path r')]))) ∧
  m1 !! src_key (cwd st) r = None ∧
  organize parse_csv st =
  Ok tt (State (arrange (cwd st) post m2) (cwd st)
           (stdout st ++ reports (cwd st) pre m0 ++
            ["Warning: File not found - " +:+ join base_dir (relative_path r)] ++
            reports (cwd st) post m2 ++ [completion])).
Proof.
  intros Hin -> Hmissing m0 m1 m2.
  pose proof (gone_at_turn _ _ _ _ _ Hin Hmissing) as Hgone. fold m0 m1 in Hgone.
  split.
  { intros df row r' s s1 [Hp Hg] Hmk Hnone.
    unfold process_row, bind, pd.getitem. rewrite Hp, Hg. simpl.
    fold (source_file r'). fold (genre_dir r'). rewrite Hmk.
    unfold get. by rewrite Hnone. }
  split; [done|].
  pose proof (input_rows _ _ _ Hin) as Hvalid.
  apply Forall_app in Hvalid as [_ [Hv _]%Forall_cons].
  rewrite (organize_organized _ _ _ Hin). unfold organized. fold m0.
  rewrite arrange_app, reports_app. simpl. fold m1.
  assert (place (cwd st) r m1 = m2) as ->.
  { unfold place. fold m2. unfold m2.
    rewrite ensure_dir_ne by (apply not_eq_sym; by apply src_dir_ne).
    by rewrite Hgone. }
  unfold report. rewrite Hgone. f_equal. by rewrite <-!app_assoc.
Qed.

(** A table of three rows, the second without its file: one warning, the
    label directory of the second row, and the third row moved. *)
Lemma missing_source_only_warns_witness :
  ∃ st', organize plain_csv.read
           (demo.snapshot demo.two_files
              (demo.csv_of [demo.rock_x; demo.pop_z; demo.jazz_y]))
         = Ok tt st' ∧
    stdout st' = ["Warning: File not found - GT-Music-Genre/c/z.wav"; completion] ∧
    contents "GT-Music-Genre/test/pop" st' = Some Dir ∧
    contents "GT-Music-Genre/test/jazz/y.wav" st' = Some (File "Y").
Proof.
  eexists. split.
  - apply (missing_source_only_warns plain_csv.read
             (demo.snapshot demo.two_files
                (demo.csv_of [demo.rock_x; demo.pop_z; demo.jazz_y]))
             [demo.rock_x; demo.pop_z; demo.jazz_y]
             [demo.rock_x] [demo.jazz_y] demo.pop_z).
    + concrete_input.
    + reflexivity.
    + left. by_eval.
  - split_and!; by_eval.
Defined.

(** C2, the claim as stated fails: the first row has no file and is warned
    about; the second row names a directory, which is moved with the file
    [a] in it; the third row then finds a directory at its destination and
    in it a file of its name, so [shutil.move] raises.  The run ends there:
    the warning is the only line printed, no completion line follows. *)
Lemma later_row_can_end_the_run :
  let rows := [demo.ghost; demo.dir_a; demo.rock_ba] in
  let st := demo.snapshot demo.nested_files (demo.csv_of rows) in
  forallb valid_row rows = true ∧
  contents (source_file demo.ghost) st = None ∧
  ∃ st', organize plain_csv.read st = Raise ShutilError st' ∧
    stdout st' = ["Warning: File not found - GT-Music-Genre/ghost.wav"] ∧
    contents "GT-Music-Genre/test/rock/a/a" st' = Some (File "A") ∧
    contents "GT-Music-Genre/b/a" st' = Some (File "B").
Proof.
  intros rows st. split_and!; [by_eval|by_eval|].
  exists (makedirs_facts.final (organize plain_csv.read st)).
  split_and!; [apply raise_final; by_eval|by_eval..].
Qed.

Lemma read_csv_pure {parse_csv : string → exn + pd.DataFrame} (p : string) (st : state) :
  makedirs_facts.final (read_csv parse_csv p st) = st.
Proof.
  unfold read_csv. destruct (os.resolve p st); [done|].
  destruct (os.node_at _ _) as [[]|]; try done.
  by destruct (parse_csv _).
Qed.

(** C3 (as amended).  A failed fetch and a failed read of the metadata table
    end the process with the error they raised; when the read fails, the
    state is the one [os.makedirs] left: nothing was printed, no row was
    processed and nothing but directories was added.  On well-formed input
    these two are the only fatal errors: the run completes. *)
Theorem fetch_and_read_errors_are_fatal
    (snapshot_download : string → string → string → M unit)
    (parse_csv : string → exn + pd.DataFrame) (st st0 : state) :
  ensure_root st = Ok tt st0 →
  (∀ e st1, fetch snapshot_download st0 = Raise e st1 →
     main snapshot_download parse_csv st = Raise e st1) ∧
  (∀ e st1 st2 st3,
     fetch snapshot_download st0 = Ok tt st1 →
     os.makedirs save_dir true st1 = Ok tt st2 →
     read_csv parse_csv csv_file st2 = Raise e st3 →
     main snapshot_download parse_csv st = Raise e st2 ∧
     makedirs_facts.grows st1 st2) ∧
  (∀ st1 rows,
     fetch snapshot_download st0 = Ok tt st1 →
     well_formed_input parse_csv st1 rows →
     main snapshot_download parse_csv st = Ok tt (organized rows st1)).
Proof.
  intros Hroot. split_and!.
  - intros e st1 Hfetch. unfold main, bind. by rewrite Hroot, Hfetch.
  - intros e st1 st2 st3 Hfetch Hmk Hread.
    pose proof (@read_csv_pure parse_csv csv_file st2) as Hpure.
    rewrite Hread in Hpure. simpl in Hpure. subst st3. split.
    + unfold main, organize, bind. rewrite Hroot, Hfetch, Hmk.
      change (posixpath.join base_dir "test.csv") with csv_file. by rewrite Hread.
    + pose proof (makedirs_facts.makedirs_grows save_dir true st1) as H.
      by rewrite Hmk in H.
  - intros st1 rows Hfetch Hin. unfold main, bind. rewrite Hroot, Hfetch.
    by apply organize_organized.
Qed.

Lemma fetch_and_read_errors_are_fatal_witness :
  main demo.already_fetched plain_csv.read
    (demo.snapshot demo.two_files (demo.csv_of [demo.rock_x; demo.jazz_y])) =
  Ok tt (organized [demo.rock_x; demo.jazz_y]
           (demo.snapshot demo.two_files (demo.csv_of [demo.rock_x; demo.jazz_y]))).
Proof.
  destruct (fetch_and_read_errors_are_fatal demo.already_fetched plain_csv.read
              (demo.snapshot demo.two_files (demo.csv_of [demo.rock_x; demo.jazz_y]))
              (demo.snapshot demo.two_files (demo.csv_of [demo.rock_x; demo.jazz_y])))
    as (_ & _ & Hok).
  - by_eval.
  - apply Hok; [reflexivity|concrete_input].
Defined.

(** C3, the claim as stated fails: the fetch succeeds and the metadata table
    is read, yet the process ends with an error, since a regular file sits
    where the directory [GT-Music-Genre/test] has to be. *)
Lemma blocked_output_root_is_fatal :
  let st := demo.snapshot [(["test"], File "")] (demo.csv_of [demo.rock_x]) in
  ensure_root st = Ok tt st ∧
  fetch demo.already_fetched st = Ok tt st ∧
  (∃ df, read_csv plain_csv.read csv_file st = Ok df st) ∧
  main demo.already_fetched plain_csv.read st = Raise FileExistsError st.
Proof. split_and!; [by_eval|by_eval|eexists; by_eval|by_eval]. Qed.

(** A table whose class column has another name is read without error,
    and the first row raises [KeyError]. *)
Example missing_column_is_fatal :
  let text := plain_csv.render [["path"; "genre"]; ["a/x.wav"; "rock"]] in
  ∃ st', main demo.already_fetched plain_csv.read (demo.snapshot demo.two_files text)
         = Raise (KeyError "classname") st'.
Proof. eexists. by_eval. Qed.

(** C5.  Creating a directory that exists raises nothing and changes
    nothing; so the script's directory creation, run against a tree that has
    the output root and every label directory, once or twice, leaves it as it
    is. *)
Theorem directory_creation_is_idempotent (st : state) (rows : list MetadataRow) :
  os.path_isdir save_dir st = true →
  (∀ r, r ∈ rows → os.path_isdir (genre_dir r) st = true) →
  (∀ name, os.path_isdir name st = true → os.makedirs name true st = Ok tt st) ∧
  make_dirs rows st = Ok tt st ∧
  (make_dirs rows ;; make_dirs rows) st = Ok tt st.
Proof.
  intros Hroot Hdirs.
  assert (make_dirs rows st = Ok tt st) as Hmake.
  { unfold make_dirs, bind. rewrite makedirs_facts.makedirs_existing by done.
    induction rows as [|r rows' IH]; simpl; [done|].
    unfold bind. rewrite makedirs_facts.makedirs_existing by (apply Hdirs; by left).
    apply IH. intros r' Hr'. apply Hdirs. by right. }
  split_and!; [intros name; apply makedirs_facts.makedirs_existing|done|].
  unfold bind at 1. by rewrite Hmake.
Qed.

Lemma directory_creation_is_idempotent_witness :
  let st := demo.snapshot
              ((["test"], Dir) :: (["test"; "rock"], Dir) :: demo.two_files)
              (demo.csv_of [demo.rock_x]) in
  (∀ name, os.path_isdir name st = true → os.makedirs name true st = Ok tt st) ∧
  make_dirs [demo.rock_x] st = Ok tt st ∧
  (make_dirs [demo.rock_x] ;; make_dirs [demo.rock_x]) st = Ok tt st.
Proof.
  intros st. apply (directory_creation_is_idempotent st [demo.rock_x]).
  - by_eval.
  - intros r Hr. each_row Hr. by_eval.
Defined.



(** * Further properties of the script *)

(** X1.  Lines 6 to 9 never do anything: [audio_datasets_path] is [.], the
    directory the process is in, which it finds in every state, also after
    the directory was removed from the tree.  So the guard is never taken,
    and the script is the download followed by the organizer. *)
Theorem ensure_root_changes_nothing
    (snapshot_download : string → string → string → M unit)
    (parse_csv : string → exn + pd.DataFrame) (st : state) :
  os.path_exists audio_datasets_path st = true ∧
  ensure_root st = Ok tt st ∧
  main snapshot_download parse_csv st =
  (fetch snapshot_download ;; organize parse_csv) st.
Proof.
  assert (os.path_exists audio_datasets_path st = true) as Hdot
    by by apply makedirs_facts.start_exists.
  split_and!; [done|..]; unfold main, ensure_root, bind, get; by rewrite Hdot.
Qed.

(** X2.  A row either carries two strings in the columns [path] and
    [classname], or the loop body raises [KeyError] or [TypeError] before it
    touches anything: the state is the one it started in. *)
Theorem undecodable_row_raises (df : pd.DataFrame) (row : list pd.value) (st : state) :
  (∀ r, ¬ row_of df row r) →
  ∃ e, process_row df row st = Raise e st ∧
       (e = KeyError "path" ∨ e = KeyError "classname" ∨ e = TypeError).
Proof.
  intros Hno. unfold process_row, bind, pd.getitem.
  destruct (pd.loc df row "path") as [e|[p|]] eqn:Hp; simpl.
  - exists e. split; [done|]. left. unfold pd.loc in Hp.
    destruct (pd.index_of _ _); congruence.
  - destruct (pd.loc df row "classname") as [e|[g|]] eqn:Hg; simpl.
    + exists e. split; [done|]. right; left. unfold pd.loc in Hg.
      destruct (pd.index_of _ _); congruence.
    + destruct (Hno {| relative_path := p; class_label := g |}). by split.
    + exists TypeError. auto.
  - exists TypeError. auto.
Qed.

Lemma undecodable_row_raises_witness :
  let df := {| pd.columns := ["path"; "genre"];
               pd.data := [[pd.VStr "a/x.wav"; pd.VStr "rock"]] |} in
  let st := demo.snapshot demo.two_files "" in
  ∃ e, process_row df [pd.VStr "a/x.wav"; pd.VStr "rock"] st = Raise e st ∧
       (e = KeyError "path" ∨ e = KeyError "classname" ∨ e = TypeError).
Proof.
  intros df st. apply (undecodable_row_raises df _ st).
  intros r [_ Hg]. vm_compute in Hg. discriminate.
Defined.

(** X3.  The file name of the destination (line 33, the basename of the
    joined source path) is the basename of the table's path, whatever the
    string is: joining with the base directory never changes it. *)
Theorem filename_is_basename_of_path (r : MetadataRow) :
  basename (source_file r) = basename (relative_path r).
Proof.
  unfold source_file, join.
  destruct (startswith_sep (relative_path r)); [done|]. simpl.
  apply basename_app_sep.
Qed.

(** X4.  Two rows of the data model collide, that is have the same
    destination, exactly when they agree on the label and on the basename:
    the directories of the relative path play no part. *)
Theorem destinations_collide_iff (r1 r2 : MetadataRow) :
  valid_row r1 = true → valid_row r2 = true →
  dest_file r1 = dest_file r2 ↔
  class_label r1 = class_label r2 ∧
  basename (relative_path r1) = basename (relative_path r2).
Proof.
  intros Hv1 Hv2. split.
  - intros Heq. apply (f_equal components) in Heq.
    rewrite !dest_components in Heq by done. by injection Heq.
  - intros [Hl Hb]. by rewrite !dest_file_eq, !genre_dir_eq, Hl, Hb by done.
Qed.

Lemma destinations_collide_iff_witness :
  dest_file demo.rock_x = dest_file demo.rock_bx ↔
  class_label demo.rock_x = class_label demo.rock_bx ∧
  basename (relative_path demo.rock_x) = basename (relative_path demo.rock_bx).
Proof. apply destinations_collide_iff; by_eval. Defined.

(** X6.  The three [os.makedirs] calls of the script (lines 9, 23 and 37)
    only ever add directories: whether they return or raise, no entry is
    removed or replaced, and nothing is printed. *)
Theorem makedirs_calls_only_add_directories (r : MetadataRow) (st : state) :
  makedirs_facts.grows st (makedirs_facts.final (os.makedirs audio_datasets_path true st)) ∧
  makedirs_facts.grows st (makedirs_facts.final (os.makedirs save_dir true st)) ∧
  makedirs_facts.grows st (makedirs_facts.final (os.makedirs (genre_dir r) true st)).
Proof. split_and!; apply makedirs_facts.makedirs_rec_grows. Qed.

(** The rows that earn a warning: those whose source is not in the tree [m]
    and those whose path an earlier row has listed already. *)
Fixpoint unavailable (m : gmap path node) (c : path) (seen : list string)
    (rows : list MetadataRow) : list MetadataRow :=
  match rows with
  | [] => []
  | r :: rows' =>
      let rest := unavailable m c (relative_path r :: seen) rows' in
      if decide (m !! src_key c r = None ∨ relative_path r ∈ seen)
      then r :: rest else rest
  end.

Module output_facts.

Lemma reports_unavailable (c : path) (m0 : gmap path node)
    (rows : list MetadataRow) (seen : list string) (m : gmap path node) :
  Forall (λ r, valid_row r = true) rows →
  (∀ r, r ∈ rows → m0 !! src_key c r ≠ Some Dir) →
  (∀ r, valid_row r = true →
     (relative_path r ∈ seen → m !! src_key c r = None) ∧
     (relative_path r ∉ seen → m !! src_key c r = m0 !! src_key c r)) →
  reports c rows m = (λ r, warning (source_file r)) <$> unavailable m0 c seen rows.
Proof.
  intros Hvs. revert seen m.
  induction Hvs as [|r rows Hv Hvs IH]; intros seen m Hnd Hinv; simpl; [done|].
  assert (reports c rows (place c r m) =
          (λ r, warning (source_file r)) <$>
          unavailable m0 c (relative_path r :: seen) rows) as ->.
  { apply IH; [intros; apply Hnd; by right|].
    intros r' Hv'. destruct (Hinv r' Hv') as [Hseen Hnew].
    rewrite place_src by done. split.
    - intros [Heq|Hin]%elem_of_cons.
      + assert (src_key c r = src_key c r') as Hk by (unfold src_key; by rewrite Heq).
        rewrite decide_True by done.
        destruct (decide (relative_path r' ∈ seen)) as [Hin|Hnin];
          [by rewrite Hseen|].
        rewrite Hnew by done. rewrite <-Hk.
        pose proof (Hnd r) as Hd.
        destruct (m0 !! src_key c r) as [[]|]; try done.
        destruct Hd; [by left|done].
      + rewrite Hseen by done. by case_decide.
    - intros [Hne Hnin]%not_elem_of_cons.
      rewrite decide_False; [by apply Hnew|].
      intros Heq%src_key_inj. congruence. }
  destruct (Hinv r Hv) as [Hseen Hnew]. unfold report.
  destruct (decide (relative_path r ∈ seen)) as [Hin|Hnin].
  - rewrite Hseen by done. rewrite decide_True by by right. done.
  - rewrite Hnew by done. pose proof (Hnd r) as Hd.
    destruct (m0 !! src_key c r) as [[data|]|] eqn:Hk.
    + rewrite decide_False; [done|]. by intros [?|?].
    + destruct Hd; [by left|done].
    + by rewrite decide_True by by left.
Qed.

Lemma unavailable_ext (c : path) (m m' : gmap path node) (seen : list string)
    (rows : list MetadataRow) :
  (∀ r, r ∈ rows → m !! src_key c r = m' !! src_key c r) →
  unavailable m c seen rows = unavailable m' c seen rows.
Proof.
  revert seen. induction rows as [|r rows IH]; intros seen Heq; simpl; [done|].
  rewrite IH by (intros; apply Heq; by right).
  rewrite (Heq r) by by left. done.
Qed.

(** Every regular file of [m] was in [m0] at the same place, or is the
    source of a row of [R] at its destination. *)
Definition traced (c : path) (R : list MetadataRow) (m0 m : gmap path node) : Prop :=
  ∀ k data, m !! k = Some (File data) →
    m0 !! k = Some (File data) ∨
    ∃ r, r ∈ R ∧ k = dst_key c r ∧ m0 !! src_key c r = Some (File data).

Lemma place_traced (c : path) (R : list MetadataRow) (m0 m : gmap path node)
    (r : MetadataRow) :
  Forall (λ r, valid_row r = true) R → r ∈ R →
  traced c R m0 m → traced c R m0 (place c r m).
Proof.
  intros HR Hr Hm k data. unfold place.
  assert (valid_row r = true) as Hv by by eapply Forall_forall in HR.
  assert (∀ k data, ensure_dir (dir_key c r) m !! k = Some (File data) →
                    m !! k = Some (File data)) as Hm1.
  { intros k' data'. rewrite ensure_dir_lookup. case_decide as Heq; [|done].
    subst k'. by destruct (m !! dir_key c r). }
  destruct (ensure_dir (dir_key c r) m !! src_key c r) as [[d|]|] eqn:Hsrc;
    [|intros ?%Hm1; by apply Hm..].
  destruct (decide (dst_key c r = k)) as [<-|Hne].
  - rewrite lookup_insert_eq. intros [= <-].
    apply Hm1, Hm in Hsrc as [Hsrc|(r' & Hr' & Heq & _)].
    + right. eauto.
    + by apply src_dst_ne in Heq.
  - rewrite lookup_insert_ne by done.
    intros [_ Hk]%lookup_delete_Some. by apply Hm, Hm1.
Qed.

Lemma arrange_traced (c : path) (R rows : list MetadataRow) (m0 m : gmap path node) :
  Forall (λ r, valid_row r = true) R → rows ⊆ R →
  traced c R m0 m → traced c R m0 (arrange c rows m).
Proof.
  intros HR. revert m. induction rows as [|r rows IH]; intros m Hsub Hm; simpl; [done|].
  apply IH; [set_solver|]. apply place_traced; [done|set_solver|done].
Qed.

Lemma place_keeps_dir (r : MetadataRow) (st : state) (k : path) :
  valid_row r = true → ready r st →
  fs st !! k = Some Dir → place (cwd st) r (fs st) !! k = Some Dir.
Proof.
  intros Hv Hr Hk. unfold place.
  assert (ensure_dir (dir_key (cwd st) r) (fs st) !! k = Some Dir) as Hk1.
  { rewrite ensure_dir_lookup. case_decide as Heq; [|done]. subst k. by rewrite Hk. }
  destruct (ensure_dir (dir_key (cwd st) r) (fs st) !! src_key (cwd st) r)
    as [[d|]|] eqn:Hsrc; [|done..].
  rewrite lookup_insert_ne.
  - rewrite lookup_delete_ne; [done|]. intros <-. congruence.
  - intros <-. by destruct (ready_dst _ _ Hr).
Qed.

Lemma arrange_keeps_dir (rows : list MetadataRow) (st : state) (k : path) :
  Forall (λ r, valid_row r = true) rows → Forall (λ r, ready r st) rows →
  fs st !! k = Some Dir → arrange (cwd st) rows (fs st) !! k = Some Dir.
Proof.
  intros Hvs. revert st.
  induction Hvs as [|r rows Hv Hvs IH]; intros st Hrs Hk; simpl; [done|].
  apply Forall_cons in Hrs as [Hr Hrs].
  apply (IH (State (place (cwd st) r (fs st)) (cwd st) [])).
  - eapply Forall_impl; [apply Forall_and; split; [exact Hvs|exact Hrs]|].
    intros r' [??]. by apply ready_place.
  - by apply place_keeps_dir.
Qed.

End output_facts.

(** X7.  What a run on well-formed input prints (lines 43 to 48): one
    warning for every row whose source file is not in the tree or whose path
    an earlier row has listed, in the order of the table, and then the
    completion line, once. *)
Theorem console_output (parse_csv : string → exn + pd.DataFrame)
    (st : state) (rows : list MetadataRow) :
  well_formed_input parse_csv st rows →
  ∃ st', organize parse_csv st = Ok tt st' ∧
    stdout st' =
    stdout st ++
    ((λ r, warning (source_file r)) <$> unavailable (fs st) (cwd st) [] rows) ++
    [completion].
Proof.
  intros Hin. exists (organized rows st).
  split; [by apply organize_organized|]. simpl. do 2 f_equal.
  pose proof (input_rows _ _ _ Hin) as Hvalid.
  assert (∀ r, r ∈ rows →
            ensure_dir (test_key (cwd st)) (fs st) !! src_key (cwd st) r =
            fs st !! src_key (cwd st) r) as Hsame.
  { intros r Hr. apply ensure_dir_ne, not_eq_sym, src_test_ne.
    by eapply Forall_forall in Hvalid. }
  rewrite <-(output_facts.unavailable_ext _ _ _ _ _ Hsame).
  apply output_facts.reports_unavailable; [done| |].
  - intros r Hr. rewrite Hsame by done. by apply (entry_src _ _ (input_tree _ _ _ Hin)).
  - intros r Hv. split; [by intros ?%elem_of_nil|done].
Qed.

Lemma console_output_witness :
  ∃ st', organize plain_csv.read
           (demo.snapshot demo.two_files
              (demo.csv_of [demo.rock_x; demo.pop_z; demo.jazz_x; demo.jazz_y]))
         = Ok tt st' ∧
    stdout st' =
    [] ++ ["Warning: File not found - GT-Music-Genre/c/z.wav";
           "Warning: File not found - GT-Music-Genre/a/x.wav"] ++ [completion].
Proof.
  apply (console_output plain_csv.read
           (demo.snapshot demo.two_files
              (demo.csv_of [demo.rock_x; demo.pop_z; demo.jazz_x; demo.jazz_y]))
           [demo.rock_x; demo.pop_z; demo.jazz_x; demo.jazz_y]).
  concrete_input.
Defined.

(** X8.  A run on well-formed input invents and copies nothing: every
    regular file of the final tree either was at that place, with that
    content, before the run, or sits at the destination of a row and has the
    content that row's source had before the run. *)
Theorem files_come_from_the_snapshot (parse_csv : string → exn + pd.DataFrame)
    (st : state) (rows : list MetadataRow) :
  well_formed_input parse_csv st rows →
  ∃ st', organize parse_csv st = Ok tt st' ∧
    ∀ k data, fs st' !! k = Some (File data) →
      fs st !! k = Some (File data) ∨
      ∃ r, r ∈ rows ∧ k = dst_key (cwd st) r ∧
           fs st !! src_key (cwd st) r = Some (File data).
Proof.
  intros Hin. exists (organized rows st).
  split; [by apply organize_organized|]. simpl.
  pose proof (input_rows _ _ _ Hin) as Hvalid.
  apply (output_facts.arrange_traced (cwd st) rows rows (fs st)); [done..|].
  intros k data. rewrite ensure_dir_lookup. case_decide as Heq; [|auto].
  subst k. destruct (fs st !! test_key (cwd st)); [auto|done].
Qed.

Lemma files_come_from_the_snapshot_witness :
  ∃ st', organize plain_csv.read
           (demo.snapshot demo.two_files (demo.csv_of [demo.rock_x; demo.jazz_y]))
         = Ok tt st' ∧
    ∀ k data, fs st' !! k = Some (File data) →
      fs (demo.snapshot demo.two_files (demo.csv_of [demo.rock_x; demo.jazz_y])) !! k
        = Some (File data) ∨
      ∃ r, r ∈ [demo.rock_x; demo.jazz_y] ∧ k = dst_key demo.home r ∧
           fs (demo.snapshot demo.two_files (demo.csv_of [demo.rock_x; demo.jazz_y]))
             !! src_key demo.home r = Some (File data).
Proof.
  apply (files_come_from_the_snapshot plain_csv.read
           (demo.snapshot demo.two_files (demo.csv_of [demo.rock_x; demo.jazz_y]))
           [demo.rock_x; demo.jazz_y]).
  concrete_input.
Defined.

(** X9.  A run on well-formed input removes no directory: the directories
    the files are moved out of stay behind, empty or not. *)
Theorem directories_are_kept (parse_csv : string → exn + pd.DataFrame)
    (st : state) (rows : list MetadataRow) :
  well_formed_input parse_csv st rows →
  ∃ st', organize parse_csv st = Ok tt st' ∧
    ∀ k, fs st !! k = Some Dir → fs st' !! k = Some Dir.
Proof.
  intros Hin. exists (organized rows st).
  split; [by apply organize_organized|]. intros k Hk. simpl.
  apply (output_facts.arrange_keeps_dir rows
           (set_fs (ensure_dir (test_key (cwd st)) (fs st)) st)).
  - apply Hin.
  - by apply (entry_ready parse_csv).
  - simpl. rewrite ensure_dir_lookup. case_decide as Heq; [|done].
    subst k. by rewrite Hk.
Qed.

Lemma directories_are_kept_witness :
  ∃ st', organize plain_csv.read
           (demo.snapshot demo.two_files (demo.csv_of [demo.rock_x]))
         = Ok tt st' ∧
    ∀ k, fs (demo.snapshot demo.two_files (demo.csv_of [demo.rock_x])) !! k = Some Dir →
         fs st' !! k = Some Dir.
Proof.
  apply (directories_are_kept plain_csv.read
           (demo.snapshot demo.two_files (demo.csv_of [demo.rock_x]))
           [demo.rock_x]).
  concrete_input.
Defined.

(** X10.  The output root is created before the table is read (line 23 comes
    before line 26): when [test.csv] is not in the snapshot directory the run
    ends with [FileNotFoundError], and leaves the directory
    [GT-Music-Genre/test] behind. *)
Theorem missing_table_leaves_output_root (parse_csv : string → exn + pd.DataFrame)
    (st : state) :
  wf (fs st) →
  contents base_dir st = Some Dir →
  (∀ data, contents save_dir st ≠ Some (File data)) →
  contents csv_file st = None →
  organize parse_csv st =
    Raise FileNotFoundError (set_fs (ensure_dir (test_key (cwd st)) (fs st)) st) ∧
  os.path_isdir save_dir (set_fs (ensure_dir (test_key (cwd st)) (fs st)) st) = true.
Proof.
  intros Hwf Hbase Htest Hcsv.
  rewrite (contents_named base_dir _ st Hwf named_base_dir) in Hbase.
  rewrite contents_save_dir in Htest by done.
  rewrite (contents_named csv_file _ st Hwf named_csv_file) in Hcsv.
  simpl in Hcsv. rewrite node_at_app in Hcsv.
  set (m0 := ensure_dir (test_key (cwd st)) (fs st)).
  assert (os.makedirs save_dir true st = Ok tt (set_fs m0 st)) as Hmk.
  { unfold os.makedirs.
    rewrite (makedirs_rec_leaf _ _ "GT-Music-Genre" "test"); [|done..|].
    - rewrite (makedirs_leaf_named _ _ _ _ Hwf named_save_dir Hbase).
      unfold m0, ensure_dir, test_key. simpl.
      destruct (fs st !! (cwd st ++ ["GT-Music-Genre"; "test"]))
        as [[data|]|] eqn:Hk; [|by destruct st|done].
      by destruct (Htest data).
    - rewrite path_exists_contents.
      rewrite (contents_named "GT-Music-Genre" _ st Hwf named_base_dir).
      by rewrite Hbase. }
  assert (wf m0) as Hwf0.
  { apply wf_ensure_dir; [done|by destruct (cwd st)|]. unfold test_key.
    replace (cwd st ++ ["GT-Music-Genre"; "test"])
      with ((cwd st ++ ["GT-Music-Genre"]) ++ ["test"]) by by rewrite <-app_assoc.
    by rewrite removelast_last. }
  assert (m0 !! test_key (cwd st) = Some Dir) as Hdir.
  { unfold m0. rewrite ensure_dir_lookup, decide_True by done.
    destruct (fs st !! test_key (cwd st)) as [[data|]|] eqn:Hk; try done.
    by destruct (Htest data). }
  split.
  - unfold organize, bind. rewrite Hmk.
    change (posixpath.join base_dir "test.csv") with csv_file. unfold read_csv.
    rewrite (resolve_named_parent csv_file ["GT-Music-Genre"] "test.csv"
               (set_fs m0 st) Hwf0 named_csv_file).
    + simpl. rewrite node_at_app. unfold m0. rewrite ensure_dir_ne.
      * by rewrite Hcsv.
      * unfold test_key. by intros ?%app_inv_head.
    + simpl. rewrite node_at_snoc. unfold m0. rewrite ensure_dir_ne.
      * by rewrite <-node_at_snoc.
      * unfold test_key. by intros ?%app_inv_head.
  - rewrite path_isdir_contents, contents_save_dir by done.
    by apply bool_decide_eq_true.
Qed.

Lemma missing_table_leaves_output_root_witness :
  let st := State (list_to_map [(["home"], Dir); (demo.home, Dir);
                                (demo.home ++ ["GT-Music-Genre"], Dir)])
                  demo.home [] in
  organize plain_csv.read st =
    Raise FileNotFoundError (set_fs (ensure_dir (test_key (cwd st)) (fs st)) st) ∧
  os.path_isdir save_dir (set_fs (ensure_dir (test_key (cwd st)) (fs st)) st) = true.
Proof.
  intros st. apply (missing_table_leaves_output_root plain_csv.read st).
  - refine (bool_decide_unpack _ _); by_eval.
  - by_eval.
  - intros data. by_eval.
  - by_eval.
Defined.

(** X11.  When a regular file sits where the label directory of a row has to
    be, the loop body raises [FileExistsError] in line 37: the source file
    is not looked at, nothing is moved and nothing is printed. *)
Theorem blocked_label_directory_raises (df : pd.DataFrame) (row : list pd.value)
    (r : MetadataRow) (st : state) (data : string) :
  row_of df row r → valid_row r = true →
  wf (fs st) →
  contents save_dir st = Some Dir →
  contents (genre_dir r) st = Some (File data) →
  process_row df row st = Raise FileExistsError st.
Proof.
  intros [Hp Hg] Hv Hwf Htest Hdir.
  rewrite contents_save_dir in Htest by done.
  rewrite contents_genre_dir in Hdir by done.
  unfold process_row, bind, pd.getitem. rewrite Hp, Hg. simpl.
  fold (source_file r). fold (genre_dir r).
  assert (os.node_at (fs st) (cwd st ++ ["GT-Music-Genre"; "test"]) = Some Dir)
    as Hnode by by rewrite node_at_app.
  assert (os.makedirs (genre_dir r) true st = Raise FileExistsError st) as ->; [|done].
  unfold os.makedirs.
  rewrite (makedirs_rec_leaf _ _ "GT-Music-Genre/test" (class_label r)).
  - rewrite (makedirs_leaf_named _ _ _ _ Hwf (named_genre_dir r Hv) Hnode).
    unfold dir_key in Hdir. simpl. by rewrite Hdir.
  - rewrite genre_dir_eq by done.
    apply split_app_name; [done..|]. by apply is_name_no_sep, valid_label.
  - pose proof (valid_label r Hv) as (? & _)%is_name_not_special.
    by destruct (class_label r).
  - rewrite path_exists_contents.
    rewrite (contents_named "GT-Music-Genre/test" _ st Hwf named_save_dir).
    simpl. by rewrite Hnode.
Qed.

Lemma blocked_label_directory_raises_witness :
  let df := {| pd.columns := ["path"; "classname"];
               pd.data := [[pd.VStr "a/x.wav"; pd.VStr "rock"]] |} in
  let st := demo.snapshot ((["test"], Dir) :: (["test"; "rock"], File "") :: demo.two_files) "" in
  process_row df [pd.VStr "a/x.wav"; pd.VStr "rock"] st = Raise FileExistsError st.
Proof.
  intros df st.
  apply (blocked_label_directory_raises df _ demo.rock_x st "").
  - split; reflexivity.
  - by_eval.
  - refine (bool_decide_unpack _ _); by_eval.
  - by_eval.
  - by_eval.
Defined.

(** X12.  When the destination of a row is an existing directory,
    [shutil.move] (line 44) moves the file into it, under the same file name;
    when that name is taken there, it raises [shutil.Error] and the file
    stays where it was. *)
Theorem destination_directory_takes_the_file (df : pd.DataFrame)
    (row : list pd.value) (r : MetadataRow) (st : state) (data : string) :
  row_of df row r → valid_row r = true →
  wf (fs st) →
  contents (source_file r) st = Some (File data) →
  contents (dest_file r) st = Some Dir →
  let inside := dst_key (cwd st) r ++ [basename (relative_path r)] in
  process_row df row st =
  match fs st !! inside with
  | None =>
      Ok tt (set_fs (<[inside := File data]> (delete (src_key (cwd st) r) (fs st))) st)
  | Some _ => Raise ShutilError st
  end.
Proof.
  intros [Hp Hg] Hv Hwf Hsrc Hdst inside.
  pose proof Hsrc as Hsrc'. pose proof Hdst as Hdst'.
  rewrite contents_source in Hsrc' by done.
  rewrite contents_dest in Hdst' by done.
  set (b := basename (relative_path r)) in *.
  assert (is_name b = true) as Hb by by apply valid_basename.
  assert (fs st !! dir_key (cwd st) r = Some Dir) as Hdir.
  { rewrite <-(node_at_app _ (cwd st) "GT-Music-Genre" ["test"; class_label r]).
    apply (wf_ancestor _ _ b []); [done|].
    rewrite <-app_assoc. simpl. rewrite node_at_app.
    unfold dst_key in Hdst'. fold b in Hdst'. rewrite Hdst'. eauto. }
  unfold process_row, bind, pd.getitem. rewrite Hp, Hg. simpl.
  fold (source_file r). fold (genre_dir r).
  rewrite makedirs_facts.makedirs_existing;
    [|by rewrite path_isdir_contents, contents_genre_dir, Hdir by done].
  fold (dest_file r). unfold get.
  rewrite path_exists_contents, Hsrc, bool_decide_eq_true_2 by eauto.
  unfold shutil.move.
  rewrite path_isdir_contents, Hdst, bool_decide_eq_true_2 by done.
  assert (os.samefile (source_file r) (dest_file r) st = false) as ->.
  { unfold os.samefile.
    rewrite (resolve_named_present _ _ _ Hwf (named_source r Hv))
      by (rewrite node_at_app; fold (src_key (cwd st) r); by rewrite Hsrc').
    rewrite (resolve_named_present _ _ _ Hwf (named_dest r Hv))
      by (simpl; rewrite node_at_app; fold (dst_key (cwd st) r); by rewrite Hdst').
    rewrite bool_decide_eq_false_2; [done|]. by apply (src_dst_ne r Hv (cwd st) r). }
  assert (os.last_component (source_file r) = b) as ->.
  { rewrite last_component_name; rewrite source_basename by done; done. }
  assert (join (dest_file r) b = dest_file r +:+ String sep b) as ->.
  { assert (is_name (basename (dest_file r)) = true) as [??]%name_tail
      by (rewrite dest_basename by done; done).
    apply join_relative; [done..|]. by apply is_name_startswith. }
  assert (named (dest_file r +:+ String sep b)
            (["GT-Music-Genre"; "test"; class_label r; b] ++ [b])) as Hreal.
  { split.
    - rewrite components_app_sep, dest_components by done.
      by rewrite (components_no_sep b) by by apply is_name_no_sep.
    - repeat constructor; try done. by apply valid_label. }
  assert (cwd st ++ ["GT-Music-Genre"; "test"; class_label r; b] ++ [b] = inside)
    as Hinside by (unfold inside, dst_key; by rewrite <-app_assoc).
  rewrite path_exists_contents, (contents_named _ _ _ Hwf Hreal).
  rewrite Hinside.
  assert (os.node_at (fs st) inside = fs st !! inside) as ->
    by (unfold inside; by rewrite node_at_snoc).
  destruct (fs st !! inside) as [n|] eqn:Hk.
  { by rewrite bool_decide_eq_true_2 by eauto. }
  rewrite bool_decide_eq_false_2 by by intros [??].
  unfold shutil.move_to, try_except.
  pose proof (named_source r Hv) as Hns.
  pose proof (components_not_nil (relative_path r)) as Hne.
  destruct (components (relative_path r)) as [|c0 cs _] eqn:Hc using rev_ind; [done|].
  rewrite app_comm_cons in Hns.
  assert (cwd st ++ ("GT-Music-Genre" :: cs) ++ [c0] = src_key (cwd st) r) as Hsk
    by (unfold src_key; by rewrite Hc).
  rewrite (rename_file_named _ _ _ _ _ _ data st Hwf Hns Hreal).
  - by rewrite Hsk, Hinside.
  - by rewrite Hsk.
  - rewrite node_at_app. fold (dst_key (cwd st) r). unfold dst_key. fold b. done.
  - rewrite Hsk, Hinside. unfold inside, src_key, dst_key.
    rewrite <-app_assoc. intros Heq%app_inv_head. injection Heq as Heq.
    pose proof (valid_head r Hv) as Hh. by rewrite Heq in Hh.
  - by rewrite Hinside, Hk.
Qed.

Lemma destination_directory_takes_the_file_witness :
  let df := {| pd.columns := ["path"; "classname"];
               pd.data := [[pd.VStr "a/x.wav"; pd.VStr "rock"]] |} in
  let st := demo.snapshot
              ((["test"], Dir) :: (["test"; "rock"], Dir) ::
               (["test"; "rock"; "x.wav"], Dir) :: demo.two_files) "" in
  let inside := dst_key (cwd st) demo.rock_x ++ ["x.wav"] in
  process_row df [pd.VStr "a/x.wav"; pd.VStr "rock"] st =
  match fs st !! inside with
  | None =>
      Ok tt (set_fs (<[inside := File "X"]>
                       (delete (src_key (cwd st) demo.rock_x) (fs st))) st)
  | Some _ => Raise ShutilError st
  end.
Proof.
  intros df st.
  apply (destination_directory_takes_the_file df _ demo.rock_x st "X").
  - split; reflexivity.
  - by_eval.
  - refine (bool_decide_unpack _ _); by_eval.
  - by_eval.
  - by_eval.
Defined.

Module order_facts.




End order_facts.


